(** * claude-tasker: the task queue and its execution lifecycle

    A shallow embedding of [src/task-manager.py] (class [ClaudeTaskManager])
    together with the parts of [src/claude-sdk-executor.py] and
    [src/web-server.py] that decide how task records are written.

    Conventions of the embedding.
    - A task record is the JSON object written by [add_task], with the types
      [add_task] gives its values (an [int] priority, [str] status, id and
      timestamps); keys that are only present after [update_task_status]
      merged them in are optional fields ([None] = key absent).
    - The two JSONL files are the state, together with the history of
      Executor invocations.  A line of the queue file is blank,
      a record that [json.loads] accepts, or text on which it raises.
    - Clock readings ([time.time()], [datetime.now().isoformat()]) are
      inputs of the operation that performs them, in program order.
    - [_log] writes to the console and to [execution.log] only; neither is
      part of the state modelled here.
    - A Python [str] is held as the bytes of its UTF-8 encoding: comparing,
      searching and splitting on ASCII text are the same on bytes and on
      characters, and [str.strip] is written out for the white space of one,
      two and three bytes.
    - A Python [float] is a binary64 float of the kernel ([PrimFloat]). *)

From Stdlib Require Import ZArith List String Ascii Bool Lia Sorted.
From Stdlib Require Import DecimalString.
From Stdlib Require Import PrimFloat FloatOps Uint63.
Import ListNotations.
Set Warnings "-inexact-float".

Local Open Scope string_scope.
Local Open Scope list_scope.
Local Open Scope Z_scope.

(** ** Python primitives used by the task manager *)

Module Py.

(** [str(n)] for an [int]. *)
Definition str_of_int (n : Z) : string :=
  NilZero.string_of_int (Z.to_int n).

(** [s1 < s2] on [str]: lexicographic on code units. *)
Definition str_lt (s1 s2 : string) : bool := String.ltb s1 s2.

(** [(a1, b1) < (a2, b2)] for a key made of an [int] and a [str]: the first
    components decide unless they are equal. *)
Definition tuple_lt (k1 k2 : Z * string) : bool :=
  if fst k1 =? fst k2 then str_lt (snd k1) (snd k2) else fst k1 <? fst k2.

Section Sort.
Context {A K : Type}.
Variable key : A -> K.
Variable lt : K -> K -> bool.

(** [list.sort(key=...)] is stable: an element moves behind another one
    only when the other's key is strictly smaller. *)
Fixpoint insert (x : A) (l : list A) : list A :=
  match l with
  | [] => [x]
  | y :: l' => if lt (key y) (key x) then y :: insert x l' else x :: l
  end.

Fixpoint sort (l : list A) : list A :=
  match l with
  | [] => []
  | x :: l' => insert x (sort l')
  end.
End Sort.

(** [list.sort(key=..., reverse=True)]: descending, and still stable. *)
Definition sort_reverse {A K} (key : A -> K) (lt : K -> K -> bool)
  : list A -> list A :=
  sort key (fun a b => lt b a).

(** [l[:n]]: a negative bound counts from the end. *)
Definition slice_to {A} (l : list A) (n : Z) : list A :=
  if n <? 0
  then firstn (Z.to_nat (Z.of_nat (List.length l) + n)) l
  else firstn (Z.to_nat n) l.

(** [max(1, min(5, priority))] *)
Definition clamp (priority : Z) : Z := Z.max 1 (Z.min 5 priority).

End Py.

(** ** Data model *)

(** The dictionary returned by [ClaudeSDKExecutor.execute_task_autonomously]. *)
Module ExecResult.
Record t := mk {
  success : bool;
  response : option string;
  actions_executed : option Z;
  results : option (list string);
  error : option string;
  execution_time : string
}.
End ExecResult.

(** A task record ([task_obj] in [add_task]). *)
Record task_obj := mkTask {
  id : string;
  task : string;
  priority : Z;
  tags : list string;
  description : string;
  status : string;
  created_at : string;
  attempts : Z;
  estimated_duration : option Z;
  dependencies : list string;
  (* keys merged in by update_task_status *)
  started_at : option string;
  completed_at : option string;
  failed_at : option string;
  error : option string;
  execution_result : option ExecResult.t;
  actions_executed : option Z;
  duration : option Z
}.

(** The keyword arguments that the callers of [update_task_status] pass. *)
Record kwargs := mkKw {
  kw_started_at : option string;
  kw_completed_at : option string;
  kw_failed_at : option string;
  kw_error : option string;
  kw_execution_result : option ExecResult.t;
  kw_actions_executed : option Z;
  kw_duration : option Z
}.

Definition no_kwargs : kwargs := mkKw None None None None None None None.

(** One line of [task-queue.jsonl]. *)
Inductive line :=
| Blank                      (* [line.strip()] is empty *)
| Entry (t : task_obj)       (* [json.loads(line)] gives [t] *)
| Corrupt (msg : string).    (* [json.loads(line)] raises, with message [msg] *)

(** The state the manager works on: [queue_file] may not exist yet,
    [completed_file] is only appended to, and [executor_calls] records, in
    order, the tasks that were handed to the Executor. *)
Record world := mkWorld {
  queue_file : option (list line);
  completed_file : list task_obj;
  executor_calls : list task_obj
}.

Definition empty_store : world := mkWorld None [] [].

Inductive exn :=
| JSONDecodeError (msg : string)   (* raised by [json.loads] *)
| Exception (msg : string).        (* raised by the Executor *)

(** [str(e)] *)
Definition str_of_exn (e : exn) : string :=
  match e with JSONDecodeError msg => msg | Exception msg => msg end.

Inductive res (A : Type) :=
| Ret (a : A)
| Exn (e : exn).
Arguments Ret {A} a.
Arguments Exn {A} e.

(** A method of the manager: reads and writes the files, returns or raises. *)
Definition M (A : Type) : Type := world -> res A * world.

Definition ret {A} (a : A) : M A := fun fs => (Ret a, fs).
Definition bind {A B} (m : M A) (k : A -> M B) : M B :=
  fun fs => match m fs with
            | (Ret a, fs') => k a fs'
            | (Exn e, fs') => (Exn e, fs')
            end.
(** [try: m except Exception as e: h e] *)
Definition try_except {A} (m : M A) (h : exn -> M A) : M A :=
  fun fs => match m fs with
            | (Ret a, fs') => (Ret a, fs')
            | (Exn e, fs') => h e fs'
            end.

Notation "x <- m ;; k" := (bind m (fun x => k))
  (at level 61, m at next level, right associativity).
Notation "m ;;; k" := (bind m (fun _ => k))
  (at level 61, right associativity).

Definition exists_queue : M bool :=
  fun fs => (Ret (match queue_file fs with Some _ => true | None => false end), fs).
Definition read_queue : M (list line) :=
  fun fs => (Ret (match queue_file fs with Some ls => ls | None => [] end), fs).
(** [open(queue_file, 'w')] followed by one [json.dumps] line per task. *)
Definition write_queue (tasks : list task_obj) : M unit :=
  fun fs => (Ret tt, mkWorld (Some (map Entry tasks)) (completed_file fs)
                              (executor_calls fs)).
(** [open(queue_file, 'a')] followed by one line. *)
Definition append_queue (t : task_obj) : M unit :=
  fun fs => (Ret tt,
             mkWorld (Some (match queue_file fs with
                            | Some ls => ls ++ [Entry t]
                            | None => [Entry t]
                            end))
                     (completed_file fs) (executor_calls fs)).
Definition append_completed (t : task_obj) : M unit :=
  fun fs => (Ret tt, mkWorld (queue_file fs) (completed_file fs ++ [t])
                              (executor_calls fs)).
(** Lifting the outcome of a loop over lines already read. *)
Definition lift {A} (r : res A) : M A := fun fs => (r, fs).

(** ** TaskStore and Scheduler *)

Definition task_id_of (now_ms : Z) : string := ("task_" ++ Py.str_of_int now_ms)%string.

(** [add_task]: [now_ms] is [int(time.time() * 1000)], [now_iso] is
    [datetime.now().isoformat()]. *)
Definition add_task (now_ms : Z) (now_iso : string)
    (task_ : string) (priority_ : Z) (tags_ : list string) (description_ : string)
  : M string :=
  let task_obj_ :=
    {| id := task_id_of now_ms;
       task := task_;
       priority := Py.clamp priority_;
       tags := tags_;
       description := description_;
       status := "pending";
       created_at := now_iso;
       attempts := 0;
       estimated_duration := None;
       dependencies := [];
       started_at := None; completed_at := None; failed_at := None;
       error := None; execution_result := None; actions_executed := None;
       duration := None |} in
  append_queue task_obj_ ;;;
  ret (id task_obj_).

(** The reading loop shared by [get_next_task] and [get_all_tasks]:
    [for line in f: if line.strip(): task = json.loads(line); if keep(task):
    tasks.append(task)]. *)
Fixpoint read_loop (keep : task_obj -> bool) (lines : list line)
    (tasks : list task_obj) : res (list task_obj) :=
  match lines with
  | [] => Ret tasks
  | Blank :: rest => read_loop keep rest tasks
  | Corrupt msg :: _ => Exn (JSONDecodeError msg)
  | Entry t :: rest =>
      if keep t then read_loop keep rest (tasks ++ [t])
      else read_loop keep rest tasks
  end.

Definition is_pending (t : task_obj) : bool := (status t =? "pending")%string.

(** The sort key of [get_next_task]: [(-x['priority'], x['created_at'])]. *)
Definition next_key (x : task_obj) : Z * string := (- priority x, created_at x).

Definition get_next_task : M (option task_obj) :=
  e <- exists_queue ;;
  if negb e then ret None
  else
    lines <- read_queue ;;
    tasks <- lift (read_loop is_pending lines []) ;;
    match tasks with
    | [] => ret None
    | _ => ret (hd_error (Py.sort next_key Py.tuple_lt tasks))
    end.

Definition status_matches (status_ : option string) (t : task_obj) : bool :=
  match status_ with
  | None => true
  | Some s => (status t =? s)%string
  end.

(** [if limit:] is false for [None] and for [0]. *)
Definition truthy (limit : option Z) : bool :=
  match limit with
  | None => false
  | Some n => negb (n =? 0)
  end.

Definition get_all_tasks (status_ : option string) (limit : option Z)
  : M (list task_obj) :=
  e <- exists_queue ;;
  tasks <- (if e then lines <- read_queue ;;
                      lift (read_loop (status_matches status_) lines [])
            else ret []) ;;
  let tasks := Py.sort_reverse created_at Py.str_lt tasks in
  let tasks := if truthy limit
               then match limit with Some n => Py.slice_to tasks n | None => tasks end
               else tasks in
  ret tasks.

(** [task['status'] = status] *)
Definition set_status (t : task_obj) (status_ : string) : task_obj :=
  mkTask (id t) (task t) (priority t) (tags t) (description t) status_
         (created_at t) (attempts t) (estimated_duration t) (dependencies t)
         (started_at t) (completed_at t) (failed_at t) (error t)
         (execution_result t) (actions_executed t) (duration t).

(** A keyword that is passed replaces the key's value; one that is not leaves
    the key as it was. *)
Definition merged {A} (passed : option A) (old : option A) : option A :=
  match passed with
  | Some v => Some v
  | None => old
  end.

(** [task.update(kwargs)] *)
Definition dict_update (t : task_obj) (kw : kwargs) : task_obj :=
  mkTask (id t) (task t) (priority t) (tags t) (description t) (status t)
         (created_at t) (attempts t) (estimated_duration t) (dependencies t)
         (merged (kw_started_at kw) (started_at t))
         (merged (kw_completed_at kw) (completed_at t))
         (merged (kw_failed_at kw) (failed_at t))
         (merged (kw_error kw) (error t))
         (merged (kw_execution_result kw) (execution_result t))
         (merged (kw_actions_executed kw) (actions_executed t))
         (merged (kw_duration kw) (duration t)).

(** [task['completed_at'] = datetime.now().isoformat()] *)
Definition set_completed_at (t : task_obj) (now : string) : task_obj :=
  mkTask (id t) (task t) (priority t) (tags t) (description t) (status t)
         (created_at t) (attempts t) (estimated_duration t) (dependencies t)
         (started_at t) (Some now) (failed_at t) (error t)
         (execution_result t) (actions_executed t) (duration t).

(** The body of [if task['id'] == task_id:] in [update_task_status]. *)
Definition update_matching (now status_ : string) (kw : kwargs) (t : task_obj)
  : task_obj :=
  let t := set_status t status_ in
  let t := dict_update t kw in
  if (status_ =? "completed")%string then set_completed_at t now else t.

(** The reading loop of [update_task_status]; [updated_task] ends up being the
    last record whose id matched. *)
Fixpoint update_loop (now task_id status_ : string) (kw : kwargs)
    (lines : list line) (tasks : list task_obj) (updated_task : option task_obj)
  : res (list task_obj * option task_obj) :=
  match lines with
  | [] => Ret (tasks, updated_task)
  | Blank :: rest => update_loop now task_id status_ kw rest tasks updated_task
  | Corrupt msg :: _ => Exn (JSONDecodeError msg)
  | Entry t :: rest =>
      if (id t =? task_id)%string
      then let t' := update_matching now status_ kw t in
           update_loop now task_id status_ kw rest (tasks ++ [t']) (Some t')
      else update_loop now task_id status_ kw rest (tasks ++ [t]) updated_task
  end.

(** [update_task_status(task_id, status, **kwargs)]; [now] is the clock
    reading made when [status == 'completed']. *)
Definition update_task_status (now task_id status_ : string) (kw : kwargs)
  : M (option task_obj) :=
  e <- exists_queue ;;
  r <- (if e then lines <- read_queue ;;
                  lift (update_loop now task_id status_ kw lines [] None)
        else ret ([], None)) ;;
  write_queue (fst r) ;;;
  match (status_ =? "completed")%string, snd r with
  | true, Some updated_task => append_completed updated_task
  | _, _ => ret tt
  end ;;;
  ret (snd r).

(** The reading loop of [delete_task]. *)
Fixpoint delete_loop (task_id : string) (lines : list line)
    (tasks : list task_obj) (deleted_task : option task_obj)
  : res (list task_obj * option task_obj) :=
  match lines with
  | [] => Ret (tasks, deleted_task)
  | Blank :: rest => delete_loop task_id rest tasks deleted_task
  | Corrupt msg :: _ => Exn (JSONDecodeError msg)
  | Entry t :: rest =>
      if negb (id t =? task_id)%string
      then delete_loop task_id rest (tasks ++ [t]) deleted_task
      else delete_loop task_id rest tasks (Some t)
  end.

Definition delete_task (task_id : string) : M bool :=
  e <- exists_queue ;;
  r <- (if e then lines <- read_queue ;;
                  lift (delete_loop task_id lines [] None)
        else ret ([], None)) ;;
  write_queue (fst r) ;;;
  ret (match snd r with Some _ => true | None => false end).

(** ** Executor *)

(** What the body of the [try] in [execute_task_autonomously] comes to: the
    model's reply was parsed into [actions] and these were executed, or some
    step raised. *)
Inductive attempt :=
| Performed (response : string) (actions : list string) (results : list string)
| Failed (msg : string).

(** [ClaudeSDKExecutor.execute_task_autonomously]; [now] is the reading for
    [execution_time]. *)
Definition execute_task_autonomously (sdk : task_obj -> attempt) (now : string)
    (t : task_obj) : ExecResult.t :=
  match sdk t with
  | Performed response actions results =>
      ExecResult.mk true (Some response) (Some (Z.of_nat (List.length actions)))
                    (Some results) None now
  | Failed msg =>
      ExecResult.mk false None None None (Some msg) now
  end.

(** The Executor as the manager sees it: the awaited call returns a result
    dictionary or raises. *)
Inductive call_outcome :=
| Returned (result : ExecResult.t)
| Raised (msg : string).

Definition executor : Type := task_obj -> call_outcome.

Definition claude_executor (sdk : task_obj -> attempt) (now : string) : executor :=
  fun t => Returned (execute_task_autonomously sdk now t).

Definition call_executor (exec : executor) (t : task_obj) : M ExecResult.t :=
  fun w =>
    let w' := mkWorld (queue_file w) (completed_file w) (executor_calls w ++ [t]) in
    match exec t with
    | Returned result => (Ret result, w')
    | Raised msg => (Exn (Exception msg), w')
    end.

(** ** ExecutionCoordinator and PollLoop *)

(** The clock readings of one dispatch, in program order. *)
Record clock := mkClock {
  at_start : string;     (* [started_at=datetime.now().isoformat()] *)
  at_finish : string;    (* [completed_at=] or [failed_at=] after the call *)
  at_stamp : string;     (* the reading inside [update_task_status] *)
  at_except : string     (* [failed_at=] in the [except] branch *)
}.

(** [.get(key, default)] *)
Definition get_default {A} (o : option A) (default : A) : A :=
  match o with Some v => v | None => default end.

(** First statement of the [if task:] branch of [_async_autonomous_loop]. *)
Definition mark_in_progress (clk : clock) (task_ : task_obj) : M unit :=
  update_task_status (at_stamp clk) (id task_) "in_progress"
    (mkKw (Some (at_start clk)) None None None None None None) ;;;
  ret tt.

(** The [try ... except Exception] of the same branch. *)
Definition execute_and_record (exec : executor) (clk : clock) (task_ : task_obj)
  : M unit :=
  try_except
    (result <- call_executor exec task_ ;;
     if ExecResult.success result
     then
       update_task_status (at_stamp clk) (id task_) "completed"
         (mkKw None (Some (at_finish clk)) None None (Some result)
               (Some (get_default (ExecResult.actions_executed result) 0)) None) ;;;
       ret tt
     else
       update_task_status (at_stamp clk) (id task_) "failed"
         (mkKw None None (Some (at_finish clk))
               (Some (get_default (ExecResult.error result) "Unknown error"))
               None None None) ;;;
       ret tt)
    (fun e =>
       update_task_status (at_stamp clk) (id task_) "failed"
         (mkKw None None (Some (at_except clk))
               (Some ("SDK execution error: " ++ str_of_exn e)%string)
               None None None) ;;;
       ret tt).

(** The [if task:] branch: what the loop does with the task it selected. *)
Definition run_task (exec : executor) (clk : clock) (task_ : task_obj) : M unit :=
  mark_in_progress clk task_ ;;;
  execute_and_record exec clk task_.

(** One turn of [while True:] in [_async_autonomous_loop], up to the sleep. *)
Definition loop_iteration (exec : executor) (clk : clock) : M unit :=
  task_ <- get_next_task ;;
  match task_ with
  | Some task_ => run_task exec clk task_
  | None => ret tt
  end.

(** [api_update_task_status] in the web server: the status of the request
    body is passed on as it is, with no keyword. *)
Definition api_update_task_status (now task_id status_ : string)
  : M (option task_obj) :=
  update_task_status now task_id status_ no_kwargs.

(** * Definitions used to state the properties *)

(** The records of the queue file, in file order. *)
Fixpoint entries (lines : list line) : list task_obj :=
  match lines with
  | [] => []
  | Entry t :: rest => t :: entries rest
  | _ :: rest => entries rest
  end.

(** No line makes [json.loads] raise. *)
Fixpoint parses (lines : list line) : bool :=
  match lines with
  | [] => true
  | Corrupt _ :: _ => false
  | _ :: rest => parses rest
  end.

Definition queue_lines (w : world) : list line :=
  match queue_file w with Some ls => ls | None => [] end.

Definition records (w : world) : list task_obj := entries (queue_lines w).

Definition readable (w : world) : Prop := parses (queue_lines w) = true.

(** The first line that does not parse decides the exception. *)
Fixpoint first_corrupt (lines : list line) : option string :=
  match lines with
  | [] => None
  | Corrupt msg :: _ => Some msg
  | _ :: rest => first_corrupt rest
  end.

(** Scenarios 1 and 2 of the specification, replayed on the code. *)
Definition scenario_1 : world :=
  snd (add_task 1700000000200 "2023-11-14T22:13:20.200000" "fix typo" 1 [] ""
    (snd (add_task 1700000000100 "2023-11-14T22:13:20.100000" "write README" 5 [] ""
       empty_store))).

Definition scenario_2 : world :=
  snd (add_task 1700000000200 "2023-11-14T22:13:20.200000" "B" 3 [] ""
    (snd (add_task 1700000000100 "2023-11-14T22:13:20.100000" "A" 3 [] ""
       empty_store))).

(** What the loop of [update_task_status] does to one record. *)
Definition apply_update (now task_id status_ : string) (kw : kwargs)
    (t : task_obj) : task_obj :=
  if (id t =? task_id)%string then update_matching now status_ kw t else t.

(** The value of [updated_task] once the records [ts] have been read. *)
Definition updated_of (now task_id status_ : string) (kw : kwargs)
    (ts : list task_obj) (init : option task_obj) : option task_obj :=
  fold_left
    (fun u t => if (id t =? task_id)%string
                then Some (update_matching now status_ kw t) else u)
    ts init.

(** The files after [update_task_status] on a store that parses. *)
Definition update_world (now task_id status_ : string) (kw : kwargs)
    (w : world) : world :=
  mkWorld
    (Some (map Entry (map (apply_update now task_id status_ kw) (records w))))
    (match (status_ =? "completed")%string,
           updated_of now task_id status_ kw (records w) None with
     | true, Some u => completed_file w ++ [u]
     | _, _ => completed_file w
     end)
    (executor_calls w).

Definition one_pending : world :=
  snd (add_task 1700000000100 "2023-11-14T22:13:20.100000" "A" 3 [] ""
         empty_store).

(** The world after the Executor was handed [t]. *)
Definition called (t : task_obj) (w : world) : world :=
  mkWorld (queue_file w) (completed_file w) (executor_calls w ++ [t]).

Definition kw_in_progress (clk : clock) : kwargs :=
  mkKw (Some (at_start clk)) None None None None None None.

Definition kw_completed (clk : clock) (result : ExecResult.t) : kwargs :=
  mkKw None (Some (at_finish clk)) None None (Some result)
       (Some (get_default (ExecResult.actions_executed result) 0)) None.

Definition kw_failed (at_ : string) (msg : string) : kwargs :=
  mkKw None None (Some at_) (Some msg) None None None.

(** The second write of a dispatch: the status and keywords it carries. *)
Definition verdict (exec : executor) (clk : clock) (task_ : task_obj)
  : string * kwargs :=
  match exec task_ with
  | Returned result =>
      if ExecResult.success result
      then ("completed"%string, kw_completed clk result)
      else ("failed"%string,
            kw_failed (at_finish clk)
                      (get_default (ExecResult.error result) "Unknown error"))
  | Raised msg =>
      ("failed"%string,
       kw_failed (at_except clk) ("SDK execution error: " ++ msg)%string)
  end.

(** Scenario 3: the record of [one_pending], an SDK call that raises
    "disk full", and the clock readings of the run. *)
Definition task_A : task_obj :=
  mkTask "task_1700000000100" "A" 3 [] "" "pending"
         "2023-11-14T22:13:20.100000" 0 None []
         None None None None None None None.

Definition disk_full : task_obj -> attempt := fun _ => Failed "disk full".

Definition clock_1 : clock :=
  mkClock "2023-11-14T22:13:50.000100" "2023-11-14T22:13:58.000200"
          "2023-11-14T22:13:58.000300" "2023-11-14T22:13:58.000400".

Definition scenario_3 : world :=
  snd (run_task (claude_executor disk_full "2023-11-14T22:13:58.000150")
                clock_1 task_A one_pending).

(** A store whose only record is already completed. *)
Definition one_completed : world :=
  snd (api_update_task_status "2023-11-14T22:13:40.000000"
         "task_1700000000100" "completed" one_pending).

Definition task_A_completed : task_obj :=
  mkTask "task_1700000000100" "A" 3 [] "" "completed"
         "2023-11-14T22:13:20.100000" 0 None []
         None (Some "2023-11-14T22:13:40.000000") None None None None None.

(** The record that [add_task] builds. *)
Definition new_task (now_ms : Z) (now_iso task_ : string) (priority_ : Z)
    (tags_ : list string) (description_ : string) : task_obj :=
  mkTask (task_id_of now_ms) task_ (Py.clamp priority_) tags_ description_
         "pending" now_iso 0 None [] None None None None None None None.

(** [tasks[:limit]] under [if limit:]. *)
Definition limited (limit : option Z) (tasks : list task_obj) : list task_obj :=
  match limit with
  | None => tasks
  | Some n => if n =? 0 then tasks else Py.slice_to tasks n
  end.

Definition task_B : task_obj :=
  mkTask "task_1700000000200" "B" 3 [] "" "pending"
         "2023-11-14T22:13:20.200000" 0 None []
         None None None None None None None.

(** A queue file whose second line was cut short. *)
Definition torn_store : world :=
  mkWorld (Some [Entry task_A;
                 Corrupt "Unterminated string starting at: line 1 column 9 (char 8)";
                 Entry task_B])
          [] [].

(** A queue file with two lines that do not parse, each with its own error. *)
Definition twice_torn_store : world :=
  mkWorld (Some [Entry task_A;
                 Corrupt "Unterminated string starting at: line 1 column 9 (char 8)";
                 Entry task_B;
                 Corrupt "Expecting value: line 1 column 1 (char 0)"])
          [] [].

(** The operations that write the store: the three of the TaskStore, as the
    CLI and the web API reach them, and a turn of the autonomous loop. *)
Inductive op :=
| Add (now_ms : Z) (now_iso task_ : string) (priority_ : Z)
      (tags_ : list string) (description_ : string)
| UpdateStatus (now task_id status_ : string) (kw : kwargs)
| Delete (task_id : string)
| Dispatch (exec : executor) (clk : clock).

Definition run_op (o : op) : M unit :=
  match o with
  | Add now_ms now_iso task_ priority_ tags_ description_ =>
      add_task now_ms now_iso task_ priority_ tags_ description_ ;;; ret tt
  | UpdateStatus now task_id status_ kw =>
      update_task_status now task_id status_ kw ;;; ret tt
  | Delete task_id => delete_task task_id ;;; ret tt
  | Dispatch exec clk => loop_iteration exec clk
  end.

(** The states of the store that an operation goes through, one per write,
    the last one being the state it ends in.  A dispatch writes twice. *)
Definition snapshots (o : op) (w : world) : list world :=
  match o with
  | Dispatch exec clk =>
      match fst (get_next_task w) with
      | Ret (Some t) =>
          match mark_in_progress clk t w with
          | (Ret _, w1) => [w1; snd (execute_and_record exec clk t w1)]
          | (Exn _, w1) => [w1]
          end
      | _ => [w]
      end
  | _ => [snd (run_op o w)]
  end.

Fixpoint history (ops : list op) (w : world) : list world :=
  match ops with
  | [] => []
  | o :: ops' => snapshots o w ++ history ops' (last (snapshots o w) w)
  end.

Definition terminal (status_ : string) : bool :=
  (status_ =? "completed")%string || (status_ =? "failed")%string.

(** Some state of [past] holds a record with this id that is in progress. *)
Definition held_in_progress (task_id : string) (past : list world) : Prop :=
  exists w t, In w past /\ In t (records w) /\
              id t = task_id /\ status t = "in_progress"%string.

(** In the chronological list of states [tr], every record that is completed
    or failed in some state was in progress in an earlier one. *)
Definition lifecycle_respected (tr : list world) : Prop :=
  forall past w future t,
    tr = past ++ w :: future ->
    In t (records w) -> terminal (status t) = true ->
    held_in_progress (id t) past.

Definition is_update (o : op) : bool :=
  match o with UpdateStatus _ _ _ _ => true | _ => false end.

Definition add_then_dispatch : list op :=
  [Add 1700000000100 "2023-11-14T22:13:20.100000" "A" 3 [] "";
   Dispatch (claude_executor disk_full "2023-11-14T22:13:58.000150") clock_1].

(** An add followed by a status update as the web API passes it on. *)
Definition add_then_complete : list op :=
  [Add 1700000000100 "2023-11-14T22:13:20.100000" "A" 3 [] "";
   UpdateStatus "2023-11-14T22:13:40.000000" "task_1700000000100" "completed"
                no_kwargs].

(** * More of the code *)

(** ** The store and the loop over several operations *)

(** The value of [deleted_task] once the records [ts] have been read. *)
Definition deleted_of (task_id : string) (ts : list task_obj)
    (init : option task_obj) : option task_obj :=
  fold_left (fun d t => if (id t =? task_id)%string then Some t else d) ts init.

(** [while True:] of [_async_autonomous_loop], for as many turns as clock
    readings are supplied; [await asyncio.sleep(interval)] touches no state.
    An exception leaves the loop. *)
Fixpoint autonomous_loop (exec : executor) (clks : list clock) : M unit :=
  match clks with
  | [] => ret tt
  | clk :: rest => loop_iteration exec clk ;;; autonomous_loop exec rest
  end.

(** A store that parses and whose records all have [attempts = 0] and a
    priority from 1 to 5. *)
Definition sound_store (w : world) : Prop :=
  readable w /\
  forall t, In t (records w) -> attempts t = 0 /\ 1 <= priority t <= 5.

(** A store that parses and in which no record is in progress. *)
Definition idle_store (w : world) : Prop :=
  readable w /\
  forall t, In t (records w) -> status t <> "in_progress"%string.

(** The records in progress all carry the same id. *)
Definition one_in_progress (w : world) : Prop :=
  forall t u, In t (records w) -> In u (records w) ->
    status t = "in_progress"%string -> status u = "in_progress"%string ->
    id t = id u.

(** ** [get_status] *)

(** [self.config], as [load_config] leaves it. *)
Record config := mkConfig {
  task_check_interval : Z;
  max_retry_attempts : Z;
  enable_auto_execution : bool;
  log_level : string;
  webhook_token : string
}.

(** The dictionary that [get_status] returns. *)
Record status_dict := mkStatus {
  running : bool;
  queue_size : nat;
  in_progress : nat;
  completed_today : nat;
  failed_tasks : nat;
  total_tasks : nat;
  last_activity : string;
  status_config : config
}.

(** [_is_today]: [same_day s] stands for the body of the [try], which is
    true when [datetime.fromisoformat] accepts [s] (with a final Z read as
    +00:00) and the date is today's, and false when it is another day or the
    parsing raises. *)
Definition _is_today (same_day : string -> bool) (timestamp_str : option string)
  : bool :=
  match timestamp_str with
  | None => false
  | Some s => if (s =? "")%string then false else same_day s
  end.

Definition has_status (s : string) (t : task_obj) : bool := (status t =? s)%string.

(** [get_status]; [now] is the reading for [last_activity]. *)
Definition get_status (same_day : string -> bool) (now : string) (cfg : config)
  : M status_dict :=
  tasks <- get_all_tasks None None ;;
  ret (mkStatus true
         (List.length (filter (has_status "pending") tasks))
         (List.length (filter (has_status "in_progress") tasks))
         (List.length
            (filter (fun t => has_status "completed" t &&
                              _is_today same_day (completed_at t)) tasks))
         (List.length (filter (has_status "failed") tasks))
         (List.length tasks)
         now cfg).

(** ** The web API ([web-server.py]) *)

(** The JSON body of a response. *)
Inductive body :=
| ErrorBody (error_ : string)                      (* [{'error': ...}] *)
| StatusBody (s : status_dict) (claude_sdk_available : bool)
| TasksBody (tasks : list task_obj)
| AddedBody (task_id : string)                     (* [{'task_id': ..., 'status': 'added'}] *)
| DeletedBody                                      (* [{'status': 'deleted'}] *)
| TaskBody (t : task_obj).

Record response := mkResponse { code : Z; json : body }.

(** What [socketio.emit] sends. *)
Inductive event :=
| task_added (task_id task_ : string)
| task_deleted (task_id : string)
| task_updated (task_id status_ : string).

(** A route: the response, the events emitted, and the store afterwards. *)
Definition route : Type := world -> (response * list event) * world.

(** The module-level [task_manager]: [None] when the import or the
    constructor failed, and whether its [claude_executor] is set. *)
Record server := mkServer {
  task_manager : bool;
  claude_executor_set : bool
}.

Definition unavailable : route :=
  fun w => ((mkResponse 500 (ErrorBody "Task manager not available"), []), w).

(** [try: ... except Exception as e: return jsonify({'error': str(e)}), 500] *)
Definition guarded {A} (m : M A) (k : A -> world -> (response * list event) * world)
  : route :=
  fun w => match m w with
           | (Ret a, w') => k a w'
           | (Exn e, w') => ((mkResponse 500 (ErrorBody (str_of_exn e)), []), w')
           end.

Definition api_status (srv : server) (same_day : string -> bool) (now : string)
    (cfg : config) : route :=
  if negb (task_manager srv) then unavailable
  else guarded (get_status same_day now cfg)
         (fun s w => ((mkResponse 200 (StatusBody s (claude_executor_set srv)), []), w)).

(** [status] and [limit] are the query arguments, [None] when absent. *)
Definition api_tasks (srv : server) (status_ : option string) (limit : option Z)
  : route :=
  if negb (task_manager srv) then unavailable
  else guarded (get_all_tasks status_ limit)
         (fun tasks w => ((mkResponse 200 (TasksBody tasks), []), w)).

(** What [request.get_json()] gives, told apart as far as the test
    [not data or key not in data] and the subscript [data[key]] do.  [A] is
    what the handler reads from an object. *)
Inductive request_json (A : Type) :=
| json_raises (msg : string)
    (* [get_json()] raises: the body is not JSON, or the content type is not
       JSON in a Flask that raises on it; [msg] is [str(e)] *)
| json_falsy
    (* [None], [null], [false], [0], the empty text, [[]] or [{}]: [not data] *)
| json_scalar (msg : string)
    (* [true] or a number other than 0: [key in data] raises TypeError [msg] *)
| json_sequence (has_key : bool) (msg : string)
    (* a text or an array that is not empty: [key in data] is [has_key] (part
       of the text, member of the array); [data[key]] raises TypeError [msg] *)
| json_object (o : A).
    (* an object *)
Arguments json_raises {A} msg.
Arguments json_falsy {A}.
Arguments json_scalar {A} msg.
Arguments json_sequence {A} has_key msg.
Arguments json_object {A} o.

(** The value of the key [priority], as [max(1, min(5, priority))] sees it:
    an integer ([true] and [false] compare as 1 and 0 and come out as the
    integer 1), or a value that has no order with an integer ([null], a text,
    an array, an object), on which [min] raises TypeError [msg].  A number
    with a fraction is an integer here when it is at most 1 or at least 5,
    where the clamp returns the bound; strictly between them the code stores
    the float, which the record of this model does not hold. *)
Inductive json_priority :=
| priority_int (n : Z)
| priority_unordered (msg : string).

(** The keys of the POST body that [api_add_task] reads; [None] = key absent.
    Task and description are texts and the tags texts, as the record holds
    them. *)
Record add_request := mkAddRequest {
  req_task : option string;
  req_priority : option json_priority;
  req_tags : option (list string);
  req_description : option string
}.

(** The key of the PUT body that [api_update_task_status] reads. *)
Record status_request := mkStatusRequest {
  req_status : option string
}.

(** An exception raised inside the [try] of a handler before the task manager
    has written anything: [return jsonify({'error': str(e)}), 500]. *)
Definition caught (msg : string) : route :=
  fun w => ((mkResponse 500 (ErrorBody msg), []), w).

(** [add_task] called with the priority of the body.  The clamp is evaluated
    while the task dict is built, before the queue file is opened. *)
Definition add_task_json (now_ms : Z) (now_iso task_ : string)
    (priority_ : json_priority) (tags_ : list string) (description_ : string)
  : M string :=
  match priority_ with
  | priority_int n => add_task now_ms now_iso task_ n tags_ description_
  | priority_unordered msg => fun w => (Exn (Exception msg), w)
  end.

Definition api_add_task (srv : server) (now_ms : Z) (now_iso : string)
    (data : request_json add_request) : route :=
  if negb (task_manager srv) then unavailable
  else
    match data with
    | json_raises msg => caught msg
    | json_falsy =>
        fun w => ((mkResponse 400 (ErrorBody "Task description required"), []), w)
    | json_scalar msg => caught msg
    | json_sequence has_key msg =>
        if has_key then caught msg
        else fun w => ((mkResponse 400 (ErrorBody "Task description required"), []), w)
    | json_object (mkAddRequest None _ _ _) =>
        fun w => ((mkResponse 400 (ErrorBody "Task description required"), []), w)
    | json_object (mkAddRequest (Some task_) priority_ tags_ description_) =>
        guarded (add_task_json now_ms now_iso task_
                   (get_default priority_ (priority_int 3)) (get_default tags_ [])
                   (get_default description_ ""%string))
          (fun task_id w =>
             ((mkResponse 200 (AddedBody task_id), [task_added task_id task_]), w))
    end.

Definition api_delete_task (srv : server) (task_id : string) : route :=
  if negb (task_manager srv) then unavailable
  else guarded (delete_task task_id)
         (fun success w =>
            if success
            then ((mkResponse 200 DeletedBody, [task_deleted task_id]), w)
            else ((mkResponse 404 (ErrorBody "Task not found"), []), w)).

(** The whole of the route [api_update_task_status]. *)
Definition api_update_task_status_route (srv : server) (now task_id : string)
    (data : request_json status_request) : route :=
  if negb (task_manager srv) then unavailable
  else
    match data with
    | json_raises msg => caught msg
    | json_falsy =>
        fun w => ((mkResponse 400 (ErrorBody "Status required"), []), w)
    | json_scalar msg => caught msg
    | json_sequence has_key msg =>
        if has_key then caught msg
        else fun w => ((mkResponse 400 (ErrorBody "Status required"), []), w)
    | json_object (mkStatusRequest None) =>
        fun w => ((mkResponse 400 (ErrorBody "Status required"), []), w)
    | json_object (mkStatusRequest (Some status_)) =>
        guarded (api_update_task_status now task_id status_)
          (fun t w =>
             match t with
             | Some t => ((mkResponse 200 (TaskBody t),
                           [task_updated task_id status_]), w)
             | None => ((mkResponse 404 (ErrorBody "Task not found"), []), w)
             end)
    end.

(** A request to one of the five API routes, with the clock readings its
    handler makes. *)
Inductive request :=
| GET_status (same_day : string -> bool) (now : string) (cfg : config)
| GET_tasks (status_ : option string) (limit : option Z)
| POST_tasks (now_ms : Z) (now_iso : string) (data : request_json add_request)
| DELETE_task (task_id : string)
| PUT_task_status (now task_id : string) (data : request_json status_request).

Definition serve (srv : server) (r : request) : route :=
  match r with
  | GET_status same_day now cfg => api_status srv same_day now cfg
  | GET_tasks status_ limit => api_tasks srv status_ limit
  | POST_tasks now_ms now_iso data => api_add_task srv now_ms now_iso data
  | DELETE_task task_id => api_delete_task srv task_id
  | PUT_task_status now task_id data => api_update_task_status_route srv now task_id data
  end.

Definition is_read (r : request) : bool :=
  match r with GET_status _ _ _ | GET_tasks _ _ => true | _ => false end.

(** ** The legacy mode and the [run] command ([task-manager.py]) *)

(** [needle in s] on [str]. *)
Fixpoint contains (needle s : string) : bool :=
  if String.prefix needle s then true
  else match s with
       | EmptyString => false
       | String _ s' => contains needle s'
       end.

(** [float(n)], for an integer from 0 to 2^53, which converts exactly. *)
Definition float_of_int (n : Z) : float := PrimFloat.of_uint63 (Uint63.of_Z n).

(** [int(x)] on a float: the value with its fraction cut off; [None] for an
    infinity or a NaN, on which Python raises. *)
Definition int_of_float (x : float) : option Z :=
  match FloatOps.Prim2SF x with
  | SpecFloat.S754_zero _ => Some 0
  | SpecFloat.S754_finite s m e =>
      let magnitude :=
        if 0 <=? e then Z.pos m * 2 ^ e else Z.pos m / 2 ^ (- e) in
      Some (if s then - magnitude else magnitude)
  | _ => None
  end.

(** [complexity_keywords], in the order of the dictionary literal. *)
Definition complexity_keywords : list (string * Z) :=
  [("update", 20); ("install", 30); ("build", 45); ("test", 25);
   ("deploy", 60); ("fix", 15); ("create", 30); ("refactor", 45)]%string.

(** [for keyword, time_adj in complexity_keywords.items(): if keyword in
    task_lower: base_time = time_adj; break] *)
Fixpoint first_keyword (task_lower : string) (keywords : list (string * Z))
    (base_time : Z) : Z :=
  match keywords with
  | [] => base_time
  | (keyword, time_adj) :: rest =>
      if contains keyword task_lower then time_adj
      else first_keyword task_lower rest base_time
  end.

(** [priority_multiplier.get(task['priority'], 1.0)] *)
Definition priority_multiplier (priority_ : Z) : float :=
  if priority_ =? 5 then 1.5%float
  else if priority_ =? 4 then 1.2%float
  else if priority_ =? 3 then 1.0%float
  else if priority_ =? 2 then 0.8%float
  else if priority_ =? 1 then 0.5%float
  else 1.0%float.

(** [_estimate_execution_time]; [lower] is [str.lower]. *)
Definition _estimate_execution_time (lower : string -> string) (task_ : task_obj)
  : res Z :=
  let base_time := first_keyword (lower (task task_)) complexity_keywords 30 in
  let base_time :=
    PrimFloat.mul (float_of_int base_time) (priority_multiplier (priority task_)) in
  match int_of_float base_time with
  | Some n => Ret n
  | None => Exn (Exception "cannot convert float to integer")
  end.

(** The content of [execute-now.json]. *)
Record trigger_data := mkTrigger {
  trigger_task : task_obj;
  timestamp : string;
  auto_execute : bool;
  trigger_source : string
}.

(** The store together with the trigger file. *)
Record disk := mkDisk {
  store : world;
  trigger_file : option trigger_data
}.

Definition D (A : Type) : Type := disk -> res A * disk.

Definition on_store {A} (m : M A) : D A :=
  fun d => (fst (m (store d)), mkDisk (snd (m (store d))) (trigger_file d)).

Definition bindD {A B} (m : D A) (k : A -> D B) : D B :=
  fun d => match m d with
           | (Ret a, d') => k a d'
           | (Exn e, d') => (Exn e, d')
           end.

(** [trigger_claude_execution]: it writes the trigger file and returns
    [True]. *)
Definition trigger_claude_execution (now : string) (task_ : task_obj) : D bool :=
  fun d => (Ret true,
            mkDisk (store d) (Some (mkTrigger task_ now true "claude-tasker"))).

(** What the [run] command prints. *)
Inductive printed :=
| Executing (task_ : string)
| No_pending_tasks.

(** The branch [args.command == 'run'] of [main]. *)
Definition main_run (now : string) : D printed :=
  bindD (on_store get_next_task) (fun task_ =>
    match task_ with
    | Some task_ =>
        bindD (trigger_claude_execution now task_) (fun _ =>
          fun d => (Ret (Executing (task task_)), d))
    | None => fun d => (Ret No_pending_tasks, d)
    end).

(** The clock readings of one turn of the legacy loop. *)
Record legacy_clock := mkLegacyClock {
  lg_start : string;     (* [started_at=datetime.now().isoformat()] *)
  lg_trigger : string;   (* the [timestamp] of the trigger file *)
  lg_stamp : string      (* the reading inside [update_task_status] *)
}.

(** One turn of [while True:] in [_run_legacy_autonomous_mode], up to the
    sleep; [time.sleep(min(execution_time, 60))] touches no state. *)
Definition legacy_iteration (lower : string -> string) (clk : legacy_clock)
  : D unit :=
  bindD (on_store get_next_task) (fun task_ =>
    match task_ with
    | Some task_ =>
        bindD (on_store
                 (update_task_status (lg_stamp clk) (id task_) "in_progress"
                    (mkKw (Some (lg_start clk)) None None None None None None)))
        (fun _ =>
        bindD (trigger_claude_execution (lg_trigger clk) task_) (fun triggered =>
          if (triggered : bool) then
            match _estimate_execution_time lower task_ with
            | Ret execution_time =>
                bindD (on_store
                         (update_task_status (lg_stamp clk) (id task_) "completed"
                            (mkKw None None None None None None
                                  (Some execution_time))))
                      (fun _ d => (Ret tt, d))
            | Exn e => fun d => (Exn e, d)
            end
          else
            bindD (on_store
                     (update_task_status (lg_stamp clk) (id task_) "failed"
                        (mkKw None None None (Some "Failed to trigger execution")
                              None None None)))
                  (fun _ d => (Ret tt, d))))
    | None => fun d => (Ret tt, d)
    end).

(** ** The reply parser and the action runner ([claude-sdk-executor.py])

    A Python [str] is held as the bytes of its UTF-8 encoding. *)

(** The one-byte characters that [str.strip] removes: U+0009 to U+000D and
    U+001C to U+0020. *)
Definition space_1 (c : ascii) : bool :=
  let n := nat_of_ascii c in
  ((9 <=? n) && (n <=? 13))%nat || ((28 <=? n) && (n <=? 32))%nat.

(** The two-byte ones: U+0085 and U+00A0. *)
Definition space_2 (c1 c2 : ascii) : bool :=
  (nat_of_ascii c1 =? 194)%nat &&
  ((nat_of_ascii c2 =? 133)%nat || (nat_of_ascii c2 =? 160)%nat).

(** The three-byte ones: U+1680, U+2000 to U+200A, U+2028, U+2029, U+202F,
    U+205F and U+3000. *)
Definition space_3 (c1 c2 c3 : ascii) : bool :=
  let n1 := nat_of_ascii c1 in
  let n2 := nat_of_ascii c2 in
  let n3 := nat_of_ascii c3 in
  ((n1 =? 225) && (n2 =? 154) && (n3 =? 128))%nat ||
  ((n1 =? 226) && (n2 =? 128) &&
   (((128 <=? n3) && (n3 <=? 138)) || (n3 =? 168) || (n3 =? 169) || (n3 =? 175)))%nat ||
  ((n1 =? 226) && (n2 =? 129) && (n3 =? 159))%nat ||
  ((n1 =? 227) && (n2 =? 128) && (n3 =? 128))%nat.

(** Removing the white space at the front; with [backwards] the text is read
    from its last byte, as [rstrip] needs it. *)
Fixpoint strip_front (backwards : bool) (s : string) : string :=
  match s with
  | String c1 s1 =>
      if space_1 c1 then strip_front backwards s1
      else
        match s1 with
        | String c2 s2 =>
            if (if backwards then space_2 c2 c1 else space_2 c1 c2)
            then strip_front backwards s2
            else
              match s2 with
              | String c3 s3 =>
                  if (if backwards then space_3 c3 c2 c1 else space_3 c1 c2 c3)
                  then strip_front backwards s3
                  else s
              | EmptyString => s
              end
        | EmptyString => s
        end
  | EmptyString => s
  end.

Definition reversed (s : string) : string :=
  string_of_list_ascii (rev (list_ascii_of_string s)).

(** [s.strip()] *)
Definition strip (s : string) : string :=
  reversed (strip_front true (reversed (strip_front false s))).

(** [s.split('\n')] *)
Fixpoint split_lines (s : string) : list string :=
  match s with
  | EmptyString => [EmptyString]
  | String c s' =>
      if (nat_of_ascii c =? 10)%nat then EmptyString :: split_lines s'
      else match split_lines s' with
           | l :: ls => String c l :: ls
           | [] => [String c EmptyString]
           end
  end.

(** [s[n:]] *)
Fixpoint drop (n : nat) (s : string) : string :=
  match n, s with
  | S n', String _ s' => drop n' s'
  | _, _ => s
  end.

(** An element of [actions]: the dictionary with its [type] and the keys that
    go with it. *)
Inductive action :=
| shell (commands : list string)
| python (code : string)
| file (path content : string).

(** [action['type']] *)
Definition action_type (a : action) : string :=
  match a with
  | shell _ => "shell"
  | python _ => "python"
  | file _ _ => "file"
  end%string.

Definition newline : string := String (ascii_of_nat 10) EmptyString.

(** The tests of the [if] chain, on the stripped line. *)
Definition opens_shell (stripped : string) : bool :=
  String.prefix "```bash" stripped || String.prefix "```sh" stripped.
Definition opens_python (stripped : string) : bool :=
  String.prefix "```python" stripped.
Definition opens_file (stripped : string) : bool :=
  String.prefix "```file:" stripped.
Definition is_fence (stripped : string) : bool :=
  String.prefix "```" stripped.

(** The body of [for line in lines:] in [_parse_claude_response]. *)
Definition parse_line (line : string) (state : option action * list action)
  : option action * list action :=
  let (current_action, actions) := state in
  if opens_shell (strip line) then (Some (shell []), actions)
  else if opens_python (strip line) then (Some (python ""), actions)
  else if opens_file (strip line)
  then (Some (file (drop 8 (strip line)) ""), actions)
  else if is_fence (strip line)
  then match current_action with
       | Some a => (None, actions ++ [a])
       | None => (current_action, actions)
       end
  else match current_action with
       | Some (shell commands) =>
           if negb (strip line =? "")%string && negb (String.prefix "#" line)
           then (Some (shell (commands ++ [strip line])), actions)
           else (current_action, actions)
       | Some (python code) =>
           (Some (python (code ++ line ++ newline)%string), actions)
       | Some (file path content) =>
           (Some (file path (content ++ line ++ newline)%string), actions)
       | None => (current_action, actions)
       end.

(** The loop: [current_action] and [actions] after the lines were read. *)
Definition parse_lines (lines : list string) (state : option action * list action)
  : option action * list action :=
  fold_left (fun st line => parse_line line st) lines state.

Definition _parse_claude_response (response : string) : list action :=
  snd (parse_lines (split_lines response) (None, [])).

(** A line that opens a block, a line that closes one. *)
Definition opens (line : string) : bool :=
  opens_shell (strip line) || opens_python (strip line) || opens_file (strip line).
Definition closes (line : string) : bool :=
  is_fence (strip line) && negb (opens line).

(** The commands that a shell block keeps of its lines. *)
Definition commands_of (block : list string) : list string :=
  map strip
      (filter (fun line => negb (strip line =? "")%string &&
                           negb (String.prefix "#" line)) block).

(** [dangerous_commands] of [_run_shell_command]. *)
Definition dangerous_commands : list string :=
  ["rm -rf /"; "sudo"; "su"; "chmod 777"; "mkfs"; "dd if="]%string.

(** [any(dangerous in command for dangerous in dangerous_commands)] *)
Definition is_dangerous (command : string) : bool :=
  existsb (fun dangerous => contains dangerous command) dangerous_commands.

(** What creating the subprocess and waiting for it comes to: it exits, with
    its output decoded and stripped, or some step raises. *)
Inductive spawned :=
| Exited (stdout stderr : string) (return_code : Z)
| Spawn_raised (msg : string).

(** The dictionary that [_run_shell_command] returns; [None] = key absent. *)
Record shell_result := mkShellResult {
  sh_error : option string;
  sh_stdout : option string;
  sh_stderr : option string;
  sh_return_code : option Z;
  sh_success : option bool
}.

(** [_run_shell_command]; [ran] lists the commands handed to
    [create_subprocess_shell] so far. *)
Definition _run_shell_command (sh : string -> spawned) (command : string)
    (ran : list string) : shell_result * list string :=
  if is_dangerous command
  then (mkShellResult (Some ("Blocked dangerous command: " ++ command)%string)
                      None None None None,
        ran)
  else match sh command with
       | Exited stdout stderr return_code =>
           (mkShellResult None (Some stdout) (Some stderr) (Some return_code)
                          (Some (return_code =? 0)),
            ran ++ [command])
       | Spawn_raised msg =>
           (mkShellResult (Some msg) None None None (Some false),
            ran ++ [command])
       end.

(** The dictionary that [_run_python_code] and [_write_file] return; both
    catch what they raise. *)
Record run_result := mkRunResult {
  rr_success : bool;
  rr_message : option string;
  rr_error : option string;
  rr_size : option Z
}.

(** An element of [results]. *)
Inductive action_result :=
| shell_done (command : string) (result : shell_result)
| python_done (result : run_result)
| file_done (path : string) (result : run_result).

(** [for command in action['commands']: ...] *)
Fixpoint run_commands (sh : string -> spawned) (commands : list string)
    (results : list action_result) (ran : list string)
  : list action_result * list string :=
  match commands with
  | [] => (results, ran)
  | command :: rest =>
      let (result, ran') := _run_shell_command sh command ran in
      run_commands sh rest (results ++ [shell_done command result]) ran'
  end.

(** [_execute_actions]; [py] and [wr] stand for [_run_python_code] and
    [_write_file].  None of the three helpers lets an exception out, so the
    [except] of the loop is not entered. *)
Fixpoint _execute_actions (sh : string -> spawned) (py : string -> run_result)
    (wr : string -> string -> run_result) (actions : list action)
    (results : list action_result) (ran : list string)
  : list action_result * list string :=
  match actions with
  | [] => (results, ran)
  | shell commands :: rest =>
      let (results', ran') := run_commands sh commands results ran in
      _execute_actions sh py wr rest results' ran'
  | python code :: rest =>
      _execute_actions sh py wr rest (results ++ [python_done (py code)]) ran
  | file path content :: rest =>
      _execute_actions sh py wr rest
        (results ++ [file_done path (wr path content)]) ran
  end.

(** The body of the [try] in [execute_task_autonomously], once the SDK call
    and the logging of the reply gave the reply text ([inl]) or raised
    ([inr]); [run] stands for [_execute_actions] with its results written
    out. *)
Definition sdk_attempt (reply : task_obj -> string + string)
    (run : list action -> list string) : task_obj -> attempt :=
  fun t =>
    match reply t with
    | inl response =>
        let actions := _parse_claude_response response in
        Performed response (map action_type actions) (run actions)
    | inr msg => Failed msg
    end.

(** The commands of a shell action; a python or file action has none. *)
Definition commands_in (a : action) : list string :=
  match a with shell commands => commands | _ => [] end.

(** The number of results that an action leaves. *)
Definition results_due (a : action) : nat :=
  match a with shell commands => List.length commands | _ => 1%nat end.

Definition disk_1 : disk := mkDisk one_pending None.

Definition legacy_clock_1 : legacy_clock :=
  mkLegacyClock "2023-11-14T22:13:50.000100" "2023-11-14T22:13:50.000200"
                "2023-11-14T22:14:05.000300".

(** * Properties *)

(** ** The order on strings and on sort keys *)

Module PyFacts.

Lemma ascii_compare_refl (a : ascii) : Ascii.compare a a = Eq.
Proof. unfold Ascii.compare. apply N.compare_refl. Qed.

Lemma ascii_compare_lt_trans (a b c : ascii) :
  Ascii.compare a b = Lt -> Ascii.compare b c = Lt -> Ascii.compare a c = Lt.
Proof.
  unfold Ascii.compare. rewrite !N.compare_lt_iff. apply N.lt_trans.
Qed.

Lemma compare_refl (s : string) : String.compare s s = Eq.
Proof.
  induction s as [|a s IH]; simpl; [reflexivity|].
  now rewrite ascii_compare_refl.
Qed.

Lemma compare_lt_trans (s1 s2 s3 : string) :
  String.compare s1 s2 = Lt -> String.compare s2 s3 = Lt ->
  String.compare s1 s3 = Lt.
Proof.
  revert s2 s3.
  induction s1 as [|a s1 IH]; intros [|b s2] [|c s3]; simpl;
    try discriminate; try reflexivity.
  destruct (Ascii.compare a b) eqn:Hab; try discriminate;
    destruct (Ascii.compare b c) eqn:Hbc; try discriminate; intros H12 H23.
  - apply Ascii.compare_eq_iff in Hab, Hbc. subst.
    rewrite ascii_compare_refl. eauto.
  - apply Ascii.compare_eq_iff in Hab. subst. now rewrite Hbc.
  - apply Ascii.compare_eq_iff in Hbc. subst. now rewrite Hab.
  - now rewrite (ascii_compare_lt_trans _ _ _ Hab Hbc).
Qed.

Lemma str_lt_irrefl (s : string) : Py.str_lt s s = false.
Proof. unfold Py.str_lt, String.ltb. now rewrite compare_refl. Qed.

Lemma str_lt_trans (s1 s2 s3 : string) :
  Py.str_lt s1 s2 = true -> Py.str_lt s2 s3 = true -> Py.str_lt s1 s3 = true.
Proof.
  unfold Py.str_lt, String.ltb.
  destruct (String.compare s1 s2) eqn:H12; try discriminate.
  destruct (String.compare s2 s3) eqn:H23; try discriminate.
  now rewrite (compare_lt_trans _ _ _ H12 H23).
Qed.

Lemma str_lt_asym (s1 s2 : string) :
  Py.str_lt s1 s2 = true -> Py.str_lt s2 s1 = false.
Proof.
  unfold Py.str_lt, String.ltb. rewrite (String.compare_antisym s2 s1).
  now destruct (String.compare s1 s2).
Qed.

(** Two strings of which neither is below the other are equal. *)
Lemma str_lt_total (s1 s2 : string) :
  Py.str_lt s1 s2 = false -> Py.str_lt s2 s1 = false -> s1 = s2.
Proof.
  unfold Py.str_lt, String.ltb. rewrite (String.compare_antisym s2 s1).
  destruct (String.compare s1 s2) eqn:H; simpl; try discriminate.
  intros _ _. now apply String.compare_eq_iff.
Qed.

Lemma str_lt_neg_trans (s1 s2 s3 : string) :
  Py.str_lt s1 s2 = false -> Py.str_lt s2 s3 = false -> Py.str_lt s1 s3 = false.
Proof.
  intros H12 H23.
  destruct (Py.str_lt s1 s3) eqn:H13; [|reflexivity].
  destruct (Py.str_lt s2 s1) eqn:H21.
  - now rewrite (str_lt_trans _ _ _ H21 H13) in H23.
  - rewrite (str_lt_total _ _ H12 H21) in H13. congruence.
Qed.

Lemma tuple_lt_trans (k1 k2 k3 : Z * string) :
  Py.tuple_lt k1 k2 = true -> Py.tuple_lt k2 k3 = true ->
  Py.tuple_lt k1 k3 = true.
Proof.
  unfold Py.tuple_lt.
  destruct (Z.eqb_spec (fst k1) (fst k2)) as [E12|N12];
    destruct (Z.eqb_spec (fst k2) (fst k3)) as [E23|N23];
    destruct (Z.eqb_spec (fst k1) (fst k3)) as [E13|N13];
    rewrite ?Z.ltb_lt; try lia.
  apply str_lt_trans.
Qed.

Lemma tuple_lt_neg_trans (k1 k2 k3 : Z * string) :
  Py.tuple_lt k1 k2 = false -> Py.tuple_lt k2 k3 = false ->
  Py.tuple_lt k1 k3 = false.
Proof.
  unfold Py.tuple_lt.
  destruct (Z.eqb_spec (fst k1) (fst k2)) as [E12|N12];
    destruct (Z.eqb_spec (fst k2) (fst k3)) as [E23|N23];
    destruct (Z.eqb_spec (fst k1) (fst k3)) as [E13|N13];
    rewrite ?Z.ltb_ge; try lia.
  apply str_lt_neg_trans.
Qed.

(** *** The stable sort *)

Section SortFacts.
Context {A K : Type}.
Variable key : A -> K.
Variable lt : K -> K -> bool.

Lemma insert_In (x y : A) (l : list A) :
  In y (Py.insert key lt x l) <-> y = x \/ In y l.
Proof.
  induction l as [|z l IH]; simpl.
  - intuition.
  - destruct (lt (key z) (key x)); simpl; rewrite ?IH; intuition.
Qed.

Lemma sort_In (y : A) (l : list A) : In y (Py.sort key lt l) <-> In y l.
Proof.
  induction l as [|x l IH]; simpl; [reflexivity|].
  rewrite insert_In, IH. intuition.
Qed.

Lemma insert_length (x : A) (l : list A) :
  List.length (Py.insert key lt x l) = S (List.length l).
Proof.
  induction l as [|z l IH]; simpl; [reflexivity|].
  destruct (lt (key z) (key x)); simpl; now rewrite ?IH.
Qed.

Lemma sort_length (l : list A) :
  List.length (Py.sort key lt l) = List.length l.
Proof.
  induction l as [|x l IH]; simpl; [reflexivity|].
  now rewrite insert_length, IH.
Qed.

Hypothesis lt_trans : forall a b c,
  lt a b = true -> lt b c = true -> lt a c = true.
Hypothesis lt_neg_trans : forall a b c,
  lt a b = false -> lt b c = false -> lt a c = false.

(** The head of the sorted list is the first element of the input that no
    other element is strictly below: those in front of it are strictly
    above it, those behind it are not below it. *)
Lemma sort_head (l : list A) (m : A) (rest : list A) :
  Py.sort key lt l = m :: rest ->
  exists pre post,
    l = pre ++ m :: post /\
    (forall u, In u pre -> lt (key m) (key u) = true) /\
    (forall u, In u post -> lt (key u) (key m) = false).
Proof.
  revert m rest.
  induction l as [|x l IH]; simpl; intros m rest Hs; [discriminate|].
  destruct (Py.sort key lt l) as [|y r] eqn:Hl.
  - simpl in Hs. injection Hs as <- <-.
    assert (l = []) as ->.
    { apply length_zero_iff_nil. now rewrite <- sort_length, Hl. }
    exists [], []. repeat split; simpl; intuition.
  - destruct (IH y r eq_refl) as (pre & post & -> & Hpre & Hpost).
    simpl in Hs. destruct (lt (key y) (key x)) eqn:Hyx.
    + injection Hs as <- <-.
      exists (x :: pre), post. repeat split; [|assumption].
      intros u [<-|Hu]; auto.
    + injection Hs as <- <-.
      exists [], (pre ++ y :: post). repeat split; [intros u []|].
      intros u Hu. apply in_app_or in Hu.
      destruct Hu as [Hu|[<-|Hu]]; [|assumption|].
      * destruct (lt (key u) (key x)) eqn:Hux; [|reflexivity].
        now rewrite (lt_trans _ _ _ (Hpre u Hu) Hux) in Hyx.
      * eapply lt_neg_trans; eauto.
Qed.
Hypothesis lt_asym : forall a b, lt a b = true -> lt b a = false.

Lemma insert_sorted (x : A) (l : list A) :
  StronglySorted (fun a b => lt (key b) (key a) = false) l ->
  StronglySorted (fun a b => lt (key b) (key a) = false) (Py.insert key lt x l).
Proof.
  induction l as [|y l IH]; simpl; intros Hs.
  - repeat constructor.
  - apply StronglySorted_inv in Hs. destruct Hs as [Hs Hy].
    rewrite Forall_forall in Hy.
    destruct (lt (key y) (key x)) eqn:Hyx.
    + constructor; [auto|]. apply Forall_forall. intros z Hz.
      apply insert_In in Hz. destruct Hz as [->|Hz]; auto.
    + constructor; [constructor; [assumption|now apply Forall_forall]|].
      constructor; [assumption|]. apply Forall_forall. intros z Hz.
      eapply lt_neg_trans; eauto.
Qed.

(** In the sorted list no element is strictly below one that stands before
    it. *)
Lemma sort_sorted (l : list A) :
  StronglySorted (fun a b => lt (key b) (key a) = false) (Py.sort key lt l).
Proof.
  induction l as [|x l IH]; simpl; [constructor|]. now apply insert_sorted.
Qed.
End SortFacts.

End PyFacts.

(** ** Reading the queue file *)

Lemma entries_app (l1 l2 : list line) :
  entries (l1 ++ l2) = entries l1 ++ entries l2.
Proof.
  induction l1 as [|[|t|msg] l1 IH]; simpl; now rewrite ?IH.
Qed.

Lemma parses_app (l1 l2 : list line) :
  parses (l1 ++ l2) = parses l1 && parses l2.
Proof.
  induction l1 as [|[|t|msg] l1 IH]; simpl; now rewrite ?IH.
Qed.

Lemma entries_map_Entry (ts : list task_obj) : entries (map Entry ts) = ts.
Proof. induction ts as [|t ts IH]; simpl; now rewrite ?IH. Qed.

Lemma parses_map_Entry (ts : list task_obj) : parses (map Entry ts) = true.
Proof. induction ts as [|t ts IH]; simpl; now rewrite ?IH. Qed.

Lemma first_corrupt_parses (lines : list line) :
  parses lines = false -> exists msg, first_corrupt lines = Some msg.
Proof.
  induction lines as [|[|t|msg] lines IH]; simpl; intros H;
    try discriminate; eauto.
Qed.

Lemma In_Corrupt_parses (lines : list line) (msg : string) :
  In (Corrupt msg) lines -> parses lines = false.
Proof.
  induction lines as [|[|t|m] lines IH]; simpl; [intros []| | |];
    intros [H|H]; try discriminate; auto.
Qed.

Lemma In_entries (lines : list line) (t : task_obj) :
  In t (entries lines) <-> In (Entry t) lines.
Proof.
  induction lines as [|[|u|m] lines IH]; simpl; rewrite ?IH;
    intuition (try discriminate; try congruence).
Qed.

Lemma read_loop_ok (keep : task_obj -> bool) (lines : list line) :
  parses lines = true ->
  forall tasks,
    read_loop keep lines tasks = Ret (tasks ++ filter keep (entries lines)).
Proof.
  induction lines as [|[|t|msg] lines IH]; simpl; intros Hp tasks;
    try discriminate.
  - now rewrite app_nil_r.
  - auto.
  - destruct (keep t); rewrite IH by assumption; [|reflexivity].
    now rewrite <- app_assoc.
Qed.

Lemma read_loop_corrupt (keep : task_obj -> bool) (lines : list line) (msg : string) :
  first_corrupt lines = Some msg ->
  forall tasks, read_loop keep lines tasks = Exn (JSONDecodeError msg).
Proof.
  induction lines as [|[|t|m] lines IH]; simpl; intros Hc tasks;
    try discriminate; auto.
  - destruct (keep t); auto.
  - now injection Hc as ->.
Qed.

Lemma filter_split {A} (f : A -> bool) (l a b : list A) (x : A) :
  filter f l = a ++ x :: b ->
  exists pre post, l = pre ++ x :: post /\ filter f pre = a /\ filter f post = b.
Proof.
  revert a. induction l as [|y l IH]; simpl; intros a H.
  - now destruct a.
  - destruct (f y) eqn:Hy.
    + destruct a as [|a0 a]; simpl in H; injection H as Hy0 H; subst y.
      * exists [], l. auto.
      * destruct (IH _ H) as (pre & post & -> & Ha & Hb).
        exists (a0 :: pre), post. simpl. rewrite Hy, Ha. auto.
    + destruct (IH _ H) as (pre & post & -> & Ha & Hb).
      exists (y :: pre), post. simpl. rewrite Hy. auto.
Qed.

(** ** Scheduler.next *)

Lemma get_next_task_pure (w : world) : snd (get_next_task w) = w.
Proof.
  unfold get_next_task, bind, exists_queue, read_queue, lift, ret.
  destruct w as [[lines|] arch calls]; simpl; [|reflexivity].
  destruct (read_loop is_pending lines []) as [[|t ts]|e]; reflexivity.
Qed.

Lemma get_next_task_ok (w : world) :
  readable w ->
  get_next_task w =
    (Ret (hd_error (Py.sort next_key Py.tuple_lt (filter is_pending (records w)))), w).
Proof.
  unfold readable, records, queue_lines, get_next_task, bind, exists_queue,
    read_queue, lift, ret.
  destruct w as [[lines|] arch calls]; simpl; [|reflexivity].
  intros Hp. rewrite (read_loop_ok _ _ Hp). simpl.
  now destruct (filter is_pending (entries lines)).
Qed.

Lemma tuple_lt_next_key (t u : task_obj) :
  Py.tuple_lt (next_key t) (next_key u) = true <->
  priority u < priority t \/
  (priority u = priority t /\ Py.str_lt (created_at t) (created_at u) = true).
Proof.
  unfold Py.tuple_lt, next_key. simpl.
  destruct (Z.eqb_spec (- priority t) (- priority u)); rewrite ?Z.ltb_lt;
    intuition lia.
Qed.

Lemma tuple_lt_next_key_false (t u : task_obj) :
  Py.tuple_lt (next_key u) (next_key t) = false <->
  priority u <= priority t /\
  (priority u = priority t -> Py.str_lt (created_at u) (created_at t) = false).
Proof.
  unfold Py.tuple_lt, next_key. simpl.
  destruct (Z.eqb_spec (- priority u) (- priority t)) as [E|N];
    rewrite ?Z.ltb_ge.
  - split; [intros H; split; [lia|auto]|intros [_ H]; apply H; lia].
  - split; [intros H; split; [lia|intros; exfalso; lia]|intros [H _]; lia].
Qed.

(** [C1] On a store whose lines all parse, [get_next_task] leaves the store as
    it is; it returns [None] exactly when no record is pending; the record it
    returns is pending, of the highest priority among the pending ones, and
    among those of its priority none was created earlier; and every pending
    record that stands before it in the file has a lower priority, or the same
    priority and a later [created_at] (first come, first served). *)
Theorem get_next_task_highest_priority_fifo (w : world) :
  readable w ->
  snd (get_next_task w) = w /\
  (fst (get_next_task w) = Ret None <->
   forall t, In t (records w) -> status t <> "pending"%string) /\
  (forall u, In u (records w) -> status u = "pending"%string ->
     exists t, fst (get_next_task w) = Ret (Some t)) /\
  (forall t, fst (get_next_task w) = Ret (Some t) ->
     In t (records w) /\ status t = "pending"%string /\
     (forall u, In u (records w) -> status u = "pending"%string ->
        priority u <= priority t /\
        (priority u = priority t ->
         Py.str_lt (created_at u) (created_at t) = false)) /\
     exists pre post,
       records w = pre ++ t :: post /\
       forall u, In u pre -> status u = "pending"%string ->
         priority u < priority t \/
         (priority u = priority t /\
          Py.str_lt (created_at t) (created_at u) = true)).
Proof.
  intros Hr. split; [apply get_next_task_pure|].
  rewrite (get_next_task_ok w Hr). simpl.
  set (pend := filter is_pending (records w)).
  assert (Hpend : forall t, In t pend <->
                            In t (records w) /\ status t = "pending"%string).
  { intros t. unfold pend. rewrite filter_In. unfold is_pending.
    now rewrite String.eqb_eq. }
  assert (Hnil : Py.sort next_key Py.tuple_lt pend = [] -> pend = []).
  { intros H. apply length_zero_iff_nil.
    now rewrite <- (PyFacts.sort_length next_key Py.tuple_lt), H. }
  split; [|split].
  - destruct (Py.sort next_key Py.tuple_lt pend) as [|m r] eqn:Hs; simpl.
    + split; [|reflexivity]. intros _ t Ht Hst.
      assert (In t pend) as Hin by (apply Hpend; auto).
      now rewrite (Hnil eq_refl) in Hin.
    + split; [discriminate|]. intros Hno. exfalso.
      assert (In m pend) as Hin.
      { apply (PyFacts.sort_In next_key Py.tuple_lt). rewrite Hs. now left. }
      apply Hpend in Hin. now apply (Hno m).
  - intros u Hu Hst.
    destruct (Py.sort next_key Py.tuple_lt pend) as [|m r] eqn:Hs; simpl; eauto.
    assert (In u pend) as Hin by (apply Hpend; auto).
    now rewrite (Hnil eq_refl) in Hin.
  - intros t Ht.
    destruct (Py.sort next_key Py.tuple_lt pend) as [|m r] eqn:Hs;
      simpl in Ht; [discriminate|]. injection Ht as ->.
    destruct (PyFacts.sort_head next_key Py.tuple_lt
                PyFacts.tuple_lt_trans PyFacts.tuple_lt_neg_trans _ _ _ Hs)
      as (a & b & Hab & Ha & Hb).
    assert (In t pend) as Hin by (rewrite Hab; apply in_elt).
    apply Hpend in Hin. destruct Hin as [Hin Hst].
    repeat split; try assumption.
    + assert (In u pend) as Hu by (apply Hpend; auto).
      rewrite Hab in Hu. apply in_app_or in Hu.
      destruct Hu as [Hu|[<-|Hu]]; try lia.
      * apply Ha, tuple_lt_next_key in Hu. lia.
      * apply Hb, tuple_lt_next_key_false in Hu. lia.
    + intros Hp.
      assert (In u pend) as Hu by (apply Hpend; auto).
      rewrite Hab in Hu. apply in_app_or in Hu.
      destruct Hu as [Hu|[<-|Hu]].
      * apply Ha in Hu. pose proof Hu as Hu'.
        apply tuple_lt_next_key in Hu.
        destruct Hu as [Hu|[_ Hu]]; [lia|]. now apply PyFacts.str_lt_asym.
      * apply PyFacts.str_lt_irrefl.
      * apply Hb, tuple_lt_next_key_false in Hu. now apply Hu.
    + destruct (filter_split _ _ _ _ _ Hab) as (pre & post & Hrec & Hpre & _).
      exists pre, post. split; [assumption|].
      intros u Hu Hust. apply tuple_lt_next_key, Ha.
      rewrite <- Hpre. apply filter_In. split; [assumption|].
      unfold is_pending. now apply String.eqb_eq.
Qed.

Example scenario_1_next :
  exists t, fst (get_next_task scenario_1) = Ret (Some t) /\ task t = "write README"%string.
Proof. eexists. split; vm_compute; reflexivity. Qed.

Example scenario_2_next :
  exists t, fst (get_next_task scenario_2) = Ret (Some t) /\ task t = "A"%string.
Proof. eexists. split; vm_compute; reflexivity. Qed.

Lemma get_next_task_highest_priority_fifo_witness :
  readable scenario_2 /\ snd (get_next_task scenario_2) = scenario_2.
Proof.
  assert (H : readable scenario_2) by reflexivity.
  split; [exact H|].
  exact (proj1 (get_next_task_highest_priority_fifo scenario_2 H)).
Defined.

(** ** TaskStore.updateStatus *)

Lemma update_loop_ok (now task_id status_ : string) (kw : kwargs)
    (lines : list line) :
  parses lines = true ->
  forall tasks u,
    update_loop now task_id status_ kw lines tasks u =
    Ret (tasks ++ map (apply_update now task_id status_ kw) (entries lines),
         updated_of now task_id status_ kw (entries lines) u).
Proof.
  induction lines as [|[|t|msg] lines IH]; simpl; intros Hp tasks u;
    try discriminate.
  - now rewrite app_nil_r.
  - auto.
  - unfold apply_update at 1.
    destruct (id t =? task_id)%string; rewrite IH by assumption;
      now rewrite <- app_assoc.
Qed.

Lemma update_loop_corrupt (now task_id status_ : string) (kw : kwargs)
    (lines : list line) (msg : string) :
  first_corrupt lines = Some msg ->
  forall tasks u,
    update_loop now task_id status_ kw lines tasks u = Exn (JSONDecodeError msg).
Proof.
  induction lines as [|[|t|m] lines IH]; simpl; intros Hc tasks u;
    try discriminate; auto.
  - destruct (id t =? task_id)%string; auto.
  - now injection Hc as ->.
Qed.

Ltac run_M :=
  unfold bind, ret, lift, try_except, exists_queue, read_queue, write_queue,
    append_queue, append_completed; simpl.

Lemma update_task_status_ok (now task_id status_ : string) (kw : kwargs)
    (w : world) :
  readable w ->
  update_task_status now task_id status_ kw w =
  (Ret (updated_of now task_id status_ kw (records w) None),
   update_world now task_id status_ kw w).
Proof.
  unfold readable, update_world, records, queue_lines, update_task_status.
  destruct w as [[lines|] arch calls]; run_M.
  - intros Hp. rewrite (update_loop_ok _ _ _ _ _ Hp). simpl.
    destruct (status_ =? "completed")%string; [|reflexivity].
    now destruct (updated_of now task_id status_ kw (entries lines) None).
  - intros _. now destruct (status_ =? "completed")%string.
Qed.

(** When a line does not parse, [update_task_status] raises before it writes. *)
Lemma update_task_status_corrupt (now task_id status_ : string) (kw : kwargs)
    (w : world) (msg : string) :
  first_corrupt (queue_lines w) = Some msg ->
  update_task_status now task_id status_ kw w = (Exn (JSONDecodeError msg), w).
Proof.
  unfold queue_lines, update_task_status.
  destruct w as [[lines|] arch calls]; run_M; [|discriminate].
  intros Hc. now rewrite (update_loop_corrupt _ _ _ _ _ _ Hc).
Qed.

Lemma records_update_world (now task_id status_ : string) (kw : kwargs)
    (w : world) :
  records (update_world now task_id status_ kw w) =
  map (apply_update now task_id status_ kw) (records w).
Proof. unfold records at 1. simpl. apply entries_map_Entry. Qed.

Lemma readable_update_world (now task_id status_ : string) (kw : kwargs)
    (w : world) :
  readable (update_world now task_id status_ kw w).
Proof. unfold readable. simpl. apply parses_map_Entry. Qed.

Lemma id_update_matching (now status_ : string) (kw : kwargs) (t : task_obj) :
  id (update_matching now status_ kw t) = id t.
Proof. unfold update_matching. now destruct (status_ =? "completed")%string. Qed.

Lemma id_apply_update (now task_id status_ : string) (kw : kwargs) (t : task_obj) :
  id (apply_update now task_id status_ kw t) = id t.
Proof.
  unfold apply_update. destruct (id t =? task_id)%string; [|reflexivity].
  apply id_update_matching.
Qed.

Lemma updated_of_app (now task_id status_ : string) (kw : kwargs)
    (l1 l2 : list task_obj) (u : option task_obj) :
  updated_of now task_id status_ kw (l1 ++ l2) u =
  updated_of now task_id status_ kw l2 (updated_of now task_id status_ kw l1 u).
Proof. unfold updated_of. apply fold_left_app. Qed.

(** [updated_task] is the updated copy of a record of the store that carries
    the id, and there is one as soon as the id is present. *)
Lemma updated_of_present (now task_id status_ : string) (kw : kwargs)
    (ts : list task_obj) :
  (exists t, In t ts /\ id t = task_id) ->
  exists t, In t ts /\ id t = task_id /\
            updated_of now task_id status_ kw ts None =
            Some (update_matching now status_ kw t).
Proof.
  induction ts as [|x ts IH] using rev_ind; intros (t & Hin & Hid).
  - destruct Hin.
  - rewrite updated_of_app. simpl.
    destruct (id x =? task_id)%string eqn:Hx.
    + exists x. rewrite in_app_iff. simpl. apply String.eqb_eq in Hx. auto.
    + apply in_app_or in Hin. destruct Hin as [Hin|[<-|[]]].
      * destruct IH as (t' & Hin' & Hid' & Hu); [eauto|].
        exists t'. rewrite in_app_iff. auto.
      * apply String.eqb_neq in Hx. contradiction.
Qed.

Lemma updated_of_absent (now task_id status_ : string) (kw : kwargs)
    (ts : list task_obj) (u : option task_obj) :
  (forall t, In t ts -> id t <> task_id) ->
  updated_of now task_id status_ kw ts u = u.
Proof.
  revert u. induction ts as [|x ts IH]; simpl; intros u H; [reflexivity|].
  unfold updated_of in *. simpl.
  destruct (String.eqb_spec (id x) task_id) as [E|N].
  - exfalso. apply (H x); auto.
  - apply IH. auto.
Qed.

Lemma Forall2_map_r {A B} (R : A -> B -> Prop) (f : A -> B) (l : list A) :
  (forall x, In x l -> R x (f x)) -> Forall2 R l (map f l).
Proof.
  induction l as [|x l IH]; simpl; intros H; constructor; auto.
Qed.

Lemma Forall2_In_l {A B} (R : A -> B -> Prop) (l : list A) (l' : list B) (x : A) :
  Forall2 R l l' -> In x l -> exists y, In y l' /\ R x y.
Proof.
  induction 1 as [|a b l l' Hab _ IH]; simpl; intros Hin; [destruct Hin|].
  destruct Hin as [<-|Hin]; [eauto|].
  destruct (IH Hin) as (y & Hy & HR). eauto.
Qed.




(** ** ExecutionCoordinator.run *)

Lemma readable_called (t : task_obj) (w : world) :
  readable w -> readable (called t w).
Proof. exact (fun H => H). Qed.

Lemma records_called (t : task_obj) (w : world) :
  records (called t w) = records w.
Proof. reflexivity. Qed.

Lemma mark_in_progress_ok (clk : clock) (task_ : task_obj) (w : world) :
  readable w ->
  mark_in_progress clk task_ w =
  (Ret tt, update_world (at_stamp clk) (id task_) "in_progress"
                        (kw_in_progress clk) w).
Proof.
  intros Hr. unfold mark_in_progress, bind.
  fold (kw_in_progress clk). now rewrite (update_task_status_ok _ _ _ _ _ Hr).
Qed.

Lemma execute_and_record_ok (exec : executor) (clk : clock) (task_ : task_obj)
    (w : world) :
  readable w ->
  execute_and_record exec clk task_ w =
  (Ret tt, update_world (at_stamp clk) (id task_)
                        (fst (verdict exec clk task_))
                        (snd (verdict exec clk task_)) (called task_ w)).
Proof.
  intros Hr. pose proof (readable_called task_ w Hr) as Hc.
  unfold execute_and_record, verdict, try_except, bind, call_executor.
  fold (called task_ w).
  destruct (exec task_) as [result|msg]; simpl.
  - destruct (ExecResult.success result); simpl;
      now rewrite (update_task_status_ok _ _ _ _ _ Hc).
  - now rewrite (update_task_status_ok _ _ _ _ _ Hc).
Qed.

Lemma run_task_ok (exec : executor) (clk : clock) (task_ : task_obj) (w : world) :
  readable w ->
  run_task exec clk task_ w =
  (Ret tt,
   update_world (at_stamp clk) (id task_)
     (fst (verdict exec clk task_)) (snd (verdict exec clk task_))
     (called task_
        (update_world (at_stamp clk) (id task_) "in_progress"
                      (kw_in_progress clk) w))).
Proof.
  intros Hr. unfold run_task, bind.
  rewrite (mark_in_progress_ok _ _ _ Hr).
  apply execute_and_record_ok, readable_update_world.
Qed.

(** [C2] (as amended) Running a task of a store that parses, when the SDK call
    inside the Executor raises with message [E]: the run first writes
    ["in_progress"] with [started_at]; it hands the task to the Executor once;
    it ends with the task ["failed"], [error = E], [failed_at] set, and with
    [attempts] as it was before the run (0 after [add_task]): no write of the
    run touches [attempts]. *)
Theorem run_task_error_marks_failed_keeps_attempts
    (sdk : task_obj -> attempt) (now_exec : string) (clk : clock)
    (task_ : task_obj) (E : string) (w : world) :
  readable w ->
  In task_ (records w) ->
  sdk task_ = Failed E ->
  Forall2
    (fun t t' =>
       if (id t =? id task_)%string
       then status t' = "in_progress"%string /\
            started_at t' = Some (at_start clk) /\ attempts t' = attempts t
       else t' = t)
    (records w) (records (snd (mark_in_progress clk task_ w))) /\
  fst (run_task (claude_executor sdk now_exec) clk task_ w) = Ret tt /\
  Forall2
    (fun t t' =>
       if (id t =? id task_)%string
       then id t' = id t /\
            status t' = "failed"%string /\ error t' = Some E /\
            attempts t' = attempts t /\
            started_at t' = Some (at_start clk) /\
            failed_at t' = Some (at_finish clk)
       else t' = t)
    (records w)
    (records (snd (run_task (claude_executor sdk now_exec) clk task_ w))) /\
  (exists t',
     In t' (records (snd (run_task (claude_executor sdk now_exec) clk task_ w))) /\
     id t' = id task_ /\ status t' = "failed"%string /\ error t' = Some E /\
     attempts t' = attempts task_) /\
  executor_calls (snd (run_task (claude_executor sdk now_exec) clk task_ w)) =
    executor_calls w ++ [task_].
Proof.
  intros Hr Hin Hsdk.
  assert (Hv : verdict (claude_executor sdk now_exec) clk task_ =
               ("failed"%string, kw_failed (at_finish clk) E)).
  { unfold verdict, claude_executor, execute_task_autonomously.
    now rewrite Hsdk. }
  rewrite (mark_in_progress_ok _ _ _ Hr), (run_task_ok _ _ _ _ Hr), Hv.
  cbn [fst snd]. rewrite !records_update_world, records_called.
  rewrite records_update_world, map_map.
  assert (Hfinal :
    Forall2
      (fun t t' =>
         if (id t =? id task_)%string
         then id t' = id t /\
              status t' = "failed"%string /\ error t' = Some E /\
              attempts t' = attempts t /\
              started_at t' = Some (at_start clk) /\
              failed_at t' = Some (at_finish clk)
         else t' = t)
      (records w)
      (map (fun t => apply_update (at_stamp clk) (id task_) "failed"
                       (kw_failed (at_finish clk) E)
                       (apply_update (at_stamp clk) (id task_) "in_progress"
                          (kw_in_progress clk) t))
           (records w))).
  { apply Forall2_map_r. intros t _. unfold apply_update.
    destruct (id t =? id task_)%string eqn:Hid.
    - rewrite id_update_matching, Hid. unfold update_matching. simpl.
      repeat split.
    - now rewrite Hid. }
  split; [|split; [reflexivity|split; [exact Hfinal|split; [|reflexivity]]]].
  - apply Forall2_map_r. intros t _. unfold apply_update.
    destruct (id t =? id task_)%string; [|reflexivity].
    unfold update_matching. simpl. auto.
  - destruct (Forall2_In_l _ _ _ _ Hfinal Hin) as (t' & Ht' & Hp).
    rewrite String.eqb_refl in Hp. destruct Hp as (Hi & Hs & He & Ha & _).
    exists t'. repeat split; assumption.
Qed.

Lemma run_task_error_marks_failed_keeps_attempts_witness :
  readable one_pending /\ In task_A (records one_pending) /\
  executor_calls scenario_3 = executor_calls one_pending ++ [task_A].
Proof.
  assert (H : readable one_pending) by reflexivity.
  assert (Hin : In task_A (records one_pending)) by (left; reflexivity).
  split; [exact H|]. split; [exact Hin|].
  exact (proj2 (proj2 (proj2 (proj2
    (run_task_error_marks_failed_keeps_attempts
       disk_full "2023-11-14T22:13:58.000150" clock_1 task_A "disk full"
       one_pending H Hin eq_refl))))).
Defined.

(** [C2] (as stated) Scenario 3 on the code: the task ends ["failed"] with the
    error message, and [attempts] is 0, not 1. *)
Lemma run_task_error_attempts_stay_zero :
  exists t',
    records scenario_3 = [t'] /\ status t' = "failed"%string /\
    error t' = Some "disk full"%string /\ attempts t' = 0 /\ attempts t' <> 1.
Proof.
  eexists. repeat split; try (vm_compute; reflexivity).
  vm_compute. discriminate.
Qed.

Lemma get_next_task_some (w : world) (t : task_obj) :
  readable w ->
  fst (get_next_task w) = Ret (Some t) ->
  In t (records w) /\ status t = "pending"%string.
Proof.
  intros Hr. rewrite (get_next_task_ok w Hr). simpl. intros H.
  assert (In t (filter is_pending (records w))) as Hin.
  { apply (PyFacts.sort_In next_key Py.tuple_lt).
    destruct (Py.sort next_key Py.tuple_lt (filter is_pending (records w)));
      simpl in H; [discriminate|].
    injection H as ->. now left. }
  apply filter_In in Hin. unfold is_pending in Hin.
  now rewrite String.eqb_eq in Hin.
Qed.





(** ** TaskStore.add *)

Lemma add_task_ok (now_ms : Z) (now_iso task_ : string) (priority_ : Z)
    (tags_ : list string) (description_ : string) (w : world) :
  add_task now_ms now_iso task_ priority_ tags_ description_ w =
  (Ret (task_id_of now_ms),
   mkWorld
     (Some (queue_lines w ++
            [Entry (new_task now_ms now_iso task_ priority_ tags_ description_)]))
     (completed_file w) (executor_calls w)).
Proof.
  unfold add_task, queue_lines. run_M. now destruct (queue_file w).
Qed.

(** [C4] (as amended) [add_task] has no error path: whatever the description,
    empty or not, and whatever the store, it returns the new id and appends
    one pending record carrying that description. *)
Theorem add_task_never_fails (now_ms : Z) (now_iso task_ : string)
    (priority_ : Z) (tags_ : list string) (description_ : string) (w : world) :
  exists t,
    add_task now_ms now_iso task_ priority_ tags_ description_ w =
    (Ret (id t),
     mkWorld (Some (queue_lines w ++ [Entry t]))
             (completed_file w) (executor_calls w)) /\
    task t = task_ /\ status t = "pending"%string.
Proof.
  exists (new_task now_ms now_iso task_ priority_ tags_ description_).
  rewrite add_task_ok. repeat split.
Qed.

(** [C4] (as stated) An empty description is accepted: the call returns an id
    and the store holds the new record. *)
Lemma add_task_accepts_empty_description :
  fst (add_task 1700000000100 "2023-11-14T22:13:20.100000" "" 3 [] ""
         empty_store) = Ret "task_1700000000100"%string /\
  exists t,
    records (snd (add_task 1700000000100 "2023-11-14T22:13:20.100000" "" 3 [] ""
                    empty_store)) = [t] /\
    task t = ""%string.
Proof.
  split; [vm_compute; reflexivity|].
  eexists. split; vm_compute; reflexivity.
Qed.

(** [C8] Two calls of [add_task] that read the same millisecond return the
    same id, and the store then holds two records with that id. *)
Theorem add_task_same_millisecond_same_id
    (now_ms : Z) (iso1 iso2 task1 task2 : string) (p1 p2 : Z)
    (tags1 tags2 : list string) (d1 d2 : string) (w : world) :
  let r1 := add_task now_ms iso1 task1 p1 tags1 d1 w in
  let r2 := add_task now_ms iso2 task2 p2 tags2 d2 (snd r1) in
  fst r1 = fst r2 /\
  (exists t1 t2,
     records (snd r2) = records w ++ [t1; t2] /\
     task t1 = task1 /\ task t2 = task2 /\ id t1 = id t2) /\
  ~ NoDup (map id (records (snd r2))).
Proof.
  intros r1 r2. subst r1 r2. rewrite !add_task_ok. cbn [fst snd].
  assert (Hrec :
    records
      (mkWorld
         (Some (queue_lines
                  (mkWorld
                     (Some (queue_lines w ++
                            [Entry (new_task now_ms iso1 task1 p1 tags1 d1)]))
                     (completed_file w) (executor_calls w)) ++
                [Entry (new_task now_ms iso2 task2 p2 tags2 d2)]))
         (completed_file w) (executor_calls w)) =
    records w ++ [new_task now_ms iso1 task1 p1 tags1 d1;
                  new_task now_ms iso2 task2 p2 tags2 d2]).
  { unfold records. cbn [queue_lines queue_file].
    rewrite !entries_app, <- app_assoc. reflexivity. }
  split; [reflexivity|]. split.
  - do 2 eexists. split; [exact Hrec|]. repeat split.
  - cbn [completed_file executor_calls]. rewrite Hrec, map_app. intros Hnd.
    apply NoDup_app_remove_l in Hnd. inversion Hnd as [|x l Hnotin _].
    apply Hnotin. now left.
Qed.

Example add_task_twice_in_one_millisecond :
  map id (records
    (snd (add_task 1700000000100 "2023-11-14T22:13:20.100700" "B" 3 [] ""
       (snd (add_task 1700000000100 "2023-11-14T22:13:20.100200" "A" 3 [] ""
          empty_store))))) =
  ["task_1700000000100"; "task_1700000000100"]%string.
Proof. vm_compute. reflexivity. Qed.

(** ** TaskStore.list *)

Lemma get_all_tasks_ok (status_ : option string) (limit : option Z) (w : world) :
  readable w ->
  get_all_tasks status_ limit w =
  (Ret (limited limit
          (Py.sort_reverse created_at Py.str_lt
             (filter (status_matches status_) (records w)))), w).
Proof.
  unfold readable, records, queue_lines, get_all_tasks, limited, truthy.
  destruct w as [[lines|] arch calls]; run_M.
  - intros Hp. rewrite (read_loop_ok _ _ Hp). simpl.
    destruct limit as [n|]; [|reflexivity]. now destruct (n =? 0).
  - intros _. destruct limit as [n|]; [|reflexivity].
    destruct (n =? 0); [reflexivity|]. unfold Py.slice_to. simpl.
    now rewrite !firstn_nil, Tauto.if_same.
Qed.

(** Without the limit: the records that match the filter, and no other, each
    one no older than those behind it; the store is not written. *)
Lemma get_all_tasks_newest_first (status_ : option string) (limit : option Z)
    (w : world) :
  readable w ->
  exists every,
    get_all_tasks status_ limit w = (Ret (limited limit every), w) /\
    (forall t, In t every <->
               In t (records w) /\ status_matches status_ t = true) /\
    StronglySorted
      (fun a b => Py.str_lt (created_at a) (created_at b) = false) every.
Proof.
  intros Hr. eexists. split; [apply (get_all_tasks_ok _ _ _ Hr)|]. split.
  - intros t. unfold Py.sort_reverse. now rewrite PyFacts.sort_In, filter_In.
  - unfold Py.sort_reverse.
    apply (PyFacts.sort_sorted created_at (fun a b => Py.str_lt b a)).
    + intros a b c Hab Hbc. eapply PyFacts.str_lt_neg_trans; eauto.
    + intros a b. apply PyFacts.str_lt_asym.
Qed.

(** A positive limit keeps that many records from the front. *)
Lemma limited_positive (n : Z) (tasks : list task_obj) :
  0 < n -> limited (Some n) tasks = firstn (Z.to_nat n) tasks.
Proof.
  intros Hn. unfold limited, Py.slice_to.
  destruct (Z.eqb_spec n 0); [lia|]. destruct (Z.ltb_spec n 0); [lia|reflexivity].
Qed.

(** A limit of 0 is no limit. *)
Lemma get_all_tasks_limit_zero (status_ : option string) (w : world) :
  get_all_tasks status_ (Some 0) w = get_all_tasks status_ None w.
Proof. reflexivity. Qed.

(** [C10] With [limit=0] the listing is not cut down to no record: the two
    records of the store come back, newest first. *)
Theorem get_all_tasks_limit_zero_not_truncated :
  exists b a,
    get_all_tasks None (Some 0) scenario_2 = (Ret [b; a], scenario_2) /\
    task b = "B"%string /\ task a = "A"%string.
Proof. do 2 eexists. repeat split; vm_compute; reflexivity. Qed.

Lemma readable_after_add (now_ms : Z) (now_iso task_ : string) (priority_ : Z)
    (tags_ : list string) (description_ : string) (w : world) :
  readable w ->
  readable (snd (add_task now_ms now_iso task_ priority_ tags_ description_ w)).
Proof.
  intros Hr. rewrite add_task_ok. unfold readable in *.
  cbn [snd]. unfold queue_lines at 1. cbn [queue_file].
  now rewrite parses_app, Hr.
Qed.

Lemma records_after_add (now_ms : Z) (now_iso task_ : string) (priority_ : Z)
    (tags_ : list string) (description_ : string) (w : world) :
  records (snd (add_task now_ms now_iso task_ priority_ tags_ description_ w)) =
  records w ++ [new_task now_ms now_iso task_ priority_ tags_ description_].
Proof.
  rewrite add_task_ok. unfold records. cbn [snd]. unfold queue_lines at 1.
  cbn [queue_file]. now rewrite entries_app.
Qed.

(** [C9] After [add_task] on a store that parses, the listing of all tasks
    holds a record with the returned id that is pending, has [attempts = 0]
    and has the priority clamped into 1..5 (5 for anything above, 1 for
    anything below, the input otherwise); and when the id was not in the store
    before, it is the only record of the listing with that id. *)
Theorem add_task_then_listed_pending_clamped
    (now_ms : Z) (now_iso task_ : string) (priority_ : Z)
    (tags_ : list string) (description_ : string) (w : world) :
  readable w ->
  exists new listing,
    fst (add_task now_ms now_iso task_ priority_ tags_ description_ w) =
      Ret (id new) /\
    fst (get_all_tasks None None
           (snd (add_task now_ms now_iso task_ priority_ tags_ description_ w))) =
      Ret listing /\
    In new listing /\
    status new = "pending"%string /\ attempts new = 0 /\
    1 <= priority new <= 5 /\
    (5 <= priority_ -> priority new = 5) /\
    (priority_ <= 1 -> priority new = 1) /\
    (1 <= priority_ <= 5 -> priority new = priority_) /\
    ((forall t, In t (records w) -> id t <> id new) ->
     forall t, In t listing -> id t = id new -> t = new).
Proof.
  intros Hr.
  pose proof (readable_after_add now_ms now_iso task_ priority_ tags_
                description_ w Hr) as Hr'.
  pose proof (records_after_add now_ms now_iso task_ priority_ tags_
                description_ w) as Hrec.
  exists (new_task now_ms now_iso task_ priority_ tags_ description_).
  eexists. rewrite (get_all_tasks_ok None None _ Hr'), Hrec.
  split; [now rewrite add_task_ok|]. split; [reflexivity|].
  unfold limited, Py.sort_reverse.
  split.
  { apply PyFacts.sort_In, filter_In. split; [|reflexivity].
    apply in_or_app. right. now left. }
  unfold new_task, Py.clamp. simpl.
  repeat split; try lia.
  intros Hfresh t Hin Hid.
  apply PyFacts.sort_In, filter_In in Hin. destruct Hin as [Hin _].
  apply in_app_or in Hin. destruct Hin as [Hin|[<-|[]]]; [|reflexivity].
  exfalso. now apply (Hfresh t).
Qed.

Lemma add_task_then_listed_pending_clamped_witness :
  readable one_pending /\
  exists new listing,
    fst (add_task 1700000000200 "2023-11-14T22:13:20.200000" "B" 9 [] ""
           one_pending) = Ret (id new) /\
    fst (get_all_tasks None None
           (snd (add_task 1700000000200 "2023-11-14T22:13:20.200000" "B" 9 [] ""
                   one_pending))) = Ret listing /\
    In new listing /\ status new = "pending"%string /\ attempts new = 0 /\
    priority new = 5.
Proof.
  assert (H : readable one_pending) by reflexivity.
  split; [exact H|].
  destruct (add_task_then_listed_pending_clamped
              1700000000200 "2023-11-14T22:13:20.200000" "B" 9 [] ""
              one_pending H)
    as (new & listing & Hid & Hl & Hin & Hs & Ha & _ & H5 & _).
  exists new, listing. repeat split; try assumption. apply H5. lia.
Defined.

(** ** A record that does not parse *)

Lemma first_corrupt_In (lines : list line) (m : string) :
  In (Corrupt m) lines ->
  exists msg, first_corrupt lines = Some msg /\ In (Corrupt msg) lines.
Proof.
  induction lines as [|[|t|m'] lines IH]; simpl; [intros []| | |];
    intros [H|H]; try discriminate.
  - destruct (IH H) as (msg & Hf & Hin). eauto.
  - destruct (IH H) as (msg & Hf & Hin). eauto.
  - eauto.
  - eauto.
Qed.

Lemma first_corrupt_split (lines : list line) (msg : string) :
  first_corrupt lines = Some msg ->
  exists before after,
    lines = before ++ Corrupt msg :: after /\ parses before = true.
Proof.
  induction lines as [|[|t|m'] lines IH]; simpl; intros H; try discriminate.
  - destruct (IH H) as (before & after & -> & Hp).
    now exists (Blank :: before), after.
  - destruct (IH H) as (before & after & -> & Hp).
    now exists (Entry t :: before), after.
  - injection H as ->. now exists [], lines.
Qed.

(** [C6] (as amended) When a line of the queue file does not parse, listing
    and next-task selection both raise the decoding error of the first such
    line (every line before it parses), return no task, and leave the store
    as it was. *)
Theorem corrupt_record_makes_reads_raise
    (w : world) (m : string) (status_ : option string) (limit : option Z) :
  In (Corrupt m) (queue_lines w) ->
  exists msg,
    first_corrupt (queue_lines w) = Some msg /\
    (exists before after,
       queue_lines w = before ++ Corrupt msg :: after /\
       parses before = true) /\
    get_all_tasks status_ limit w = (Exn (JSONDecodeError msg), w) /\
    get_next_task w = (Exn (JSONDecodeError msg), w).
Proof.
  intros Hin. destruct (first_corrupt_In _ _ Hin) as (msg & Hf & _).
  exists msg. split; [assumption|].
  split; [now apply first_corrupt_split|].
  unfold get_all_tasks, get_next_task. revert Hin Hf. unfold queue_lines.
  destruct w as [[lines|] arch calls]; run_M; [|intros []].
  intros _ Hf. now rewrite !(read_loop_corrupt _ _ _ Hf).
Qed.

Lemma corrupt_record_makes_reads_raise_witness :
  In (Corrupt "Expecting value: line 1 column 1 (char 0)")
     (queue_lines twice_torn_store) /\
  get_all_tasks None None twice_torn_store =
    (Exn (JSONDecodeError
            "Unterminated string starting at: line 1 column 9 (char 8)"),
     twice_torn_store) /\
  get_next_task twice_torn_store =
    (Exn (JSONDecodeError
            "Unterminated string starting at: line 1 column 9 (char 8)"),
     twice_torn_store).
Proof.
  assert (H : In (Corrupt "Expecting value: line 1 column 1 (char 0)")
                 (queue_lines twice_torn_store))
    by (right; right; right; left; reflexivity).
  split; [exact H|].
  destruct (corrupt_record_makes_reads_raise twice_torn_store _ None None H)
    as (msg & Hf & _ & Hall & Hnext).
  vm_compute in Hf. injection Hf as <-. split; [exact Hall|exact Hnext].
Defined.

(** [C6] (as stated) The two good records around the bad line are not
    returned: both reads raise. *)
Lemma corrupt_record_not_skipped :
  entries (queue_lines torn_store) = [task_A; task_B] /\
  fst (get_all_tasks None None torn_store) =
    Exn (JSONDecodeError "Unterminated string starting at: line 1 column 9 (char 8)") /\
  fst (get_next_task torn_store) =
    Exn (JSONDecodeError "Unterminated string starting at: line 1 column 9 (char 8)").
Proof. repeat split; vm_compute; reflexivity. Qed.

(** ** TaskStore.delete *)

Lemma delete_loop_ok (task_id : string) (lines : list line) :
  parses lines = true ->
  forall tasks d,
    exists d',
      delete_loop task_id lines tasks d =
      Ret (tasks ++ filter (fun t => negb (id t =? task_id)%string) (entries lines),
           d').
Proof.
  induction lines as [|[|t|msg] lines IH]; simpl; intros Hp tasks d;
    try discriminate.
  - exists d. now rewrite app_nil_r.
  - auto.
  - destruct (negb (id t =? task_id)%string).
    + destruct (IH Hp (tasks ++ [t]) d) as (d' & ->).
      exists d'. now rewrite <- app_assoc.
    + apply IH, Hp.
Qed.

Lemma delete_task_ok (task_id : string) (w : world) :
  readable w ->
  snd (delete_task task_id w) =
  mkWorld (Some (map Entry (filter (fun t => negb (id t =? task_id)%string)
                                   (records w))))
          (completed_file w) (executor_calls w).
Proof.
  unfold readable, records, queue_lines, delete_task.
  destruct w as [[lines|] arch calls]; run_M; [|reflexivity].
  intros Hp. destruct (delete_loop_ok task_id lines Hp [] None) as (d' & ->).
  reflexivity.
Qed.

Lemma records_rewritten (ts arch calls : list task_obj) :
  records (mkWorld (Some (map Entry ts)) arch calls) = ts.
Proof. unfold records. simpl. apply entries_map_Entry. Qed.

(** ** The lifecycle over sequences of operations *)

Lemma snapshots_last (o : op) (w : world) :
  last (snapshots o w) w = snd (run_op o w).
Proof.
  destruct o as [ms iso tk p tg d|now tid s kw|tid|exec clk]; try reflexivity.
  simpl. unfold loop_iteration, bind.
  pose proof (get_next_task_pure w) as Hpure.
  destruct (get_next_task w) as [[[t|]|e] w']; simpl in *; subst w';
    try reflexivity.
  unfold run_task, bind.
  destruct (mark_in_progress clk t w) as [[[]|e] w1]; reflexivity.
Qed.

Lemma held_in_progress_more (task_id : string) (past more : list world) :
  held_in_progress task_id past -> held_in_progress task_id (past ++ more).
Proof.
  intros (w & t & Hw & Ht). exists w, t. split; [|assumption].
  apply in_or_app. now left.
Qed.

(** One more state keeps the property when each of its finished records was
    already in the state before it, or has its id in progress in the past. *)
Lemma lifecycle_snoc (tr : list world) (w w' : world) :
  lifecycle_respected (tr ++ [w]) ->
  (forall t, In t (records w') -> terminal (status t) = true ->
     In t (records w) \/ held_in_progress (id t) (tr ++ [w])) ->
  lifecycle_respected ((tr ++ [w]) ++ [w']).
Proof.
  intros Hold Hnew past x future t Hsplit Hin Hterm.
  destruct future as [|z future _] using rev_ind.
  - apply app_inj_tail in Hsplit. destruct Hsplit as [<- <-].
    destruct (Hnew t Hin Hterm) as [Hw|Hheld]; [|assumption].
    apply held_in_progress_more. now apply (Hold tr w [] t).
  - rewrite app_comm_cons, app_assoc in Hsplit.
    apply app_inj_tail in Hsplit. destruct Hsplit as [Hsplit _].
    now apply (Hold past x future t).
Qed.

Lemma status_mark (now task_id : string) (kw : kwargs) (x : task_obj) :
  id x = task_id ->
  status (apply_update now task_id "in_progress" kw x) = "in_progress"%string.
Proof.
  intros Hid. unfold apply_update. apply String.eqb_eq in Hid. now rewrite Hid.
Qed.

Lemma snd_run_op_add (now_ms : Z) (now_iso task_ : string) (priority_ : Z)
    (tags_ : list string) (description_ : string) (w : world) :
  snd (run_op (Add now_ms now_iso task_ priority_ tags_ description_) w) =
  snd (add_task now_ms now_iso task_ priority_ tags_ description_ w).
Proof. unfold run_op, bind at 1. now rewrite add_task_ok. Qed.

Lemma snd_run_op_delete (task_id : string) (w : world) :
  snd (run_op (Delete task_id) w) = snd (delete_task task_id w).
Proof.
  unfold run_op, bind at 1. now destruct (delete_task task_id w) as [[b|e] w'].
Qed.

(** An operation other than a direct status update keeps the property, and
    leaves a store that parses. *)
Lemma snapshots_respected (o : op) (tr : list world) (w : world) :
  is_update o = false ->
  readable w ->
  lifecycle_respected (tr ++ [w]) ->
  lifecycle_respected ((tr ++ [w]) ++ snapshots o w) /\
  readable (last (snapshots o w) w).
Proof.
  intros Hop Hr Hold.
  destruct o as [ms iso tk p tg d|now tid s kw|tid|exec clk];
    [| discriminate | |].
  - (* add: the new record is pending *)
    unfold snapshots. rewrite snd_run_op_add. cbn [last].
    split; [|now apply readable_after_add].
    apply lifecycle_snoc; [assumption|]. intros t Hin Hterm. left.
    rewrite records_after_add in Hin.
    apply in_app_or in Hin. destruct Hin as [Hin|[<-|[]]]; [assumption|].
    discriminate.
  - (* delete: no record appears *)
    unfold snapshots. rewrite snd_run_op_delete, (delete_task_ok _ _ Hr).
    cbn [last]. split; [|unfold readable; simpl; apply parses_map_Entry].
    apply lifecycle_snoc; [assumption|]. intros t Hin Hterm. left.
    rewrite records_rewritten in Hin. now apply filter_In in Hin.
  - (* dispatch: in progress first, finished next *)
    unfold snapshots. rewrite (get_next_task_ok w Hr). cbn [fst].
    destruct (hd_error _) as [m|].
    + rewrite (mark_in_progress_ok _ _ _ Hr).
      set (w1 := update_world (at_stamp clk) (id m) "in_progress"
                              (kw_in_progress clk) w).
      assert (Hr1 : readable w1) by apply readable_update_world.
      rewrite (execute_and_record_ok _ _ _ _ Hr1). cbn [snd last].
      split; [|apply readable_update_world].
      assert (H1 : lifecycle_respected ((tr ++ [w]) ++ [w1])).
      { apply lifecycle_snoc; [assumption|]. intros t Hin Hterm. left.
        unfold w1 in Hin. rewrite records_update_world in Hin.
        apply in_map_iff in Hin. destruct Hin as (x & <- & Hx).
        destruct (String.eqb_spec (id x) (id m)) as [E|N].
        - rewrite (status_mark _ _ _ _ E) in Hterm. discriminate.
        - unfold apply_update. apply String.eqb_neq in N. now rewrite N. }
      change ((tr ++ [w]) ++ [w1; ?w2]) with ((tr ++ [w]) ++ [w1] ++ [w2]).
      rewrite app_assoc. apply lifecycle_snoc; [assumption|].
      intros t Hin Hterm. rewrite records_update_world, records_called in Hin.
      apply in_map_iff in Hin. destruct Hin as (y & <- & Hy).
      destruct (String.eqb_spec (id y) (id m)) as [E|N].
      * right. exists w1, y. rewrite id_apply_update.
        split; [apply in_or_app; right; now left|].
        split; [assumption|]. split; [reflexivity|].
        unfold w1 in Hy. rewrite records_update_world in Hy.
        apply in_map_iff in Hy. destruct Hy as (x & <- & _).
        rewrite id_apply_update in E. now apply status_mark.
      * left. unfold apply_update. apply String.eqb_neq in N. now rewrite N.
    + cbn [last]. split; [|assumption].
      apply lifecycle_snoc; auto.
Qed.

Lemma snapshots_not_nil (o : op) (w : world) : snapshots o w <> [].
Proof.
  destruct o as [ms iso tk p tg d|now tid s kw|tid|exec clk]; try discriminate.
  simpl. destruct (fst (get_next_task w)) as [[t|]|e]; try discriminate.
  destruct (mark_in_progress clk t w) as [[[]|e] w1]; discriminate.
Qed.

Lemma history_respected (ops : list op) :
  forallb (fun o => negb (is_update o)) ops = true ->
  forall tr w,
    readable w ->
    lifecycle_respected (tr ++ [w]) ->
    lifecycle_respected ((tr ++ [w]) ++ history ops w).
Proof.
  induction ops as [|o ops IH]; simpl; intros Hops tr w Hr Hold.
  - now rewrite app_nil_r.
  - apply andb_prop in Hops. destruct Hops as [Ho Hops].
    apply negb_true_iff in Ho.
    destruct (snapshots_respected o tr w Ho Hr Hold) as [Hstep Hr'].
    pose proof (app_removelast_last w (snapshots_not_nil o w)) as Hws.
    rewrite app_assoc.
    rewrite Hws in Hstep |- * at 1. rewrite app_assoc in Hstep |- *.
    now apply IH.
Qed.

Lemma lifecycle_initial : lifecycle_respected ([] ++ [empty_store]).
Proof.
  intros past w future t Hsplit Hin _. exfalso.
  destruct past as [|p past]; simpl in Hsplit.
  - injection Hsplit as <- _. destruct Hin.
  - injection Hsplit as _ Hsplit. now apply app_cons_not_nil in Hsplit.
Qed.

(** [C7] (as amended) In every sequence of adds, deletes and turns of the
    autonomous loop starting from an empty store, and in every state the store
    goes through, a record that is completed or failed has its id in progress
    in an earlier state.  Direct status updates are left out: they write the
    status they are given. *)
Theorem lifecycle_respected_without_direct_updates (ops : list op) :
  forallb (fun o => negb (is_update o)) ops = true ->
  lifecycle_respected (empty_store :: history ops empty_store).
Proof.
  intros Hops.
  apply (history_respected ops Hops [] empty_store);
    [reflexivity|apply lifecycle_initial].
Qed.

Lemma lifecycle_respected_without_direct_updates_witness :
  forallb (fun o => negb (is_update o)) add_then_dispatch = true /\
  lifecycle_respected (empty_store :: history add_then_dispatch empty_store).
Proof.
  assert (H : forallb (fun o => negb (is_update o)) add_then_dispatch = true)
    by reflexivity.
  split; [exact H|].
  exact (lifecycle_respected_without_direct_updates add_then_dispatch H).
Defined.

Example add_then_dispatch_statuses :
  map (fun w => map status (records w))
      (empty_store :: history add_then_dispatch empty_store) =
  [[]; ["pending"]; ["in_progress"]; ["failed"]]%string.
Proof. vm_compute. reflexivity. Qed.

(** [C7] (as stated) A pending task is set to completed in one step: no state
    before shows it in progress. *)
Lemma direct_update_skips_in_progress :
  history add_then_complete empty_store = [one_pending; one_completed] /\
  ~ lifecycle_respected (empty_store :: history add_then_complete empty_store).
Proof.
  assert (Hh : history add_then_complete empty_store =
               [one_pending; one_completed]) by (vm_compute; reflexivity).
  split; [exact Hh|]. rewrite Hh. intros H.
  destruct (H [empty_store; one_pending] one_completed [] task_A_completed
              eq_refl (or_introl eq_refl) eq_refl)
    as (w & t & Hw & Ht & _ & Hst).
  destruct Hw as [<-|[<-|[]]].
  - destruct Ht.
  - destruct Ht as [<-|[]]. discriminate.
Qed.

(** The [except] branch of the loop: an Executor whose awaited call itself
    raises leaves the message behind a fixed prefix. *)
Example run_task_executor_raises :
  map (fun t => (status t, error t, attempts t))
      (records (snd (run_task (fun _ => Raised "disk full") clock_1 task_A
                              one_pending))) =
  [("failed", Some "SDK execution error: disk full", 0)]%string.
Proof. vm_compute. reflexivity. Qed.

(** Scenario 4: a successful run with three actions is archived. *)
Example scenario_4_completed_and_archived :
  let w := snd (run_task
                  (claude_executor (fun _ => Performed "done" ["a"; "b"; "c"] [])
                                   "2023-11-14T22:13:58.000150")
                  clock_1 task_A one_pending) in
  map (fun t => (status t, actions_executed t)) (records w) =
    [("completed"%string, Some 3)] /\
  records w = completed_file w.
Proof. vm_compute. split; reflexivity. Qed.


(** * Further properties of the code *)

(** ** [delete_task] *)

Lemma delete_loop_result (task_id : string) (lines : list line) :
  parses lines = true ->
  forall tasks d,
    delete_loop task_id lines tasks d =
    Ret (tasks ++ filter (fun t => negb (id t =? task_id)%string) (entries lines),
         deleted_of task_id (entries lines) d).
Proof.
  induction lines as [|[|t|msg] lines IH]; simpl; intros Hp tasks d;
    try discriminate.
  - now rewrite app_nil_r.
  - auto.
  - unfold deleted_of. simpl. destruct (id t =? task_id)%string; simpl.
    + now apply IH.
    + rewrite (IH Hp). now rewrite <- app_assoc.
Qed.

Lemma deleted_of_none (task_id : string) (ts : list task_obj) :
  deleted_of task_id ts None = None <->
  forall t, In t ts -> id t <> task_id.
Proof.
  unfold deleted_of.
  induction ts as [|x ts IH] using rev_ind; simpl.
  - intuition.
  - rewrite fold_left_app. simpl.
    destruct (String.eqb_spec (id x) task_id) as [E|N].
    + split; [discriminate|]. intros H. exfalso. apply (H x); [|assumption].
      apply in_or_app. right. now left.
    + rewrite IH. split.
      * intros H t Hin. apply in_app_or in Hin.
        destruct Hin as [Hin|[<-|[]]]; auto.
      * intros H t Hin. apply H, in_or_app. now left.
Qed.

Lemma delete_task_result (task_id : string) (w : world) :
  readable w ->
  delete_task task_id w =
  (Ret (match deleted_of task_id (records w) None with
        | Some _ => true
        | None => false
        end),
   mkWorld (Some (map Entry (filter (fun t => negb (id t =? task_id)%string)
                                    (records w))))
           (completed_file w) (executor_calls w)).
Proof.
  unfold readable, records, queue_lines, delete_task.
  destruct w as [[lines|] arch calls]; run_M; [|reflexivity].
  intros Hp. now rewrite (delete_loop_result task_id lines Hp).
Qed.

(** [X1] On a store that parses, [delete_task] answers [True] exactly when
    some record carries the id; it removes every record with that id, keeps
    the others in their order, and touches neither the archive nor the
    Executor. *)
Theorem delete_task_removes_every_match (task_id : string) (w : world) :
  readable w ->
  exists b,
    fst (delete_task task_id w) = Ret b /\
    (b = true <-> exists t, In t (records w) /\ id t = task_id) /\
    records (snd (delete_task task_id w)) =
      filter (fun t => negb (id t =? task_id)%string) (records w) /\
    (forall t, In t (records (snd (delete_task task_id w))) -> id t <> task_id) /\
    completed_file (snd (delete_task task_id w)) = completed_file w /\
    executor_calls (snd (delete_task task_id w)) = executor_calls w.
Proof.
  intros Hr. rewrite (delete_task_result _ _ Hr). cbn [fst snd].
  rewrite records_rewritten. eexists. split; [reflexivity|].
  split; [|split; [reflexivity|split; [|split; reflexivity]]].
  - pose proof (deleted_of_none task_id (records w)) as Hn.
    destruct (deleted_of task_id (records w) None) as [d|].
    + split; [intros _|reflexivity].
      destruct (existsb (fun t => (id t =? task_id)%string) (records w)) eqn:He.
      * apply existsb_exists in He. destruct He as (t & Hin & Hid).
        apply String.eqb_eq in Hid. eauto.
      * exfalso. assert (Some d = None) as Hd; [|discriminate Hd].
        apply Hn. intros t Hin Hid.
        assert (existsb (fun t => (id t =? task_id)%string) (records w) = true)
          as He'; [|congruence].
        apply existsb_exists. exists t. split; [assumption|].
        now apply String.eqb_eq.
    + split; [discriminate|]. intros (t & Hin & Hid). exfalso.
      now apply (proj1 Hn eq_refl t).
  - intros t Hin. apply filter_In in Hin. destruct Hin as [_ Hid].
    apply negb_true_iff, String.eqb_neq in Hid. assumption.
Qed.

Lemma delete_task_removes_every_match_witness :
  readable scenario_2 /\
  exists b,
    fst (delete_task "task_1700000000100" scenario_2) = Ret b /\
    records (snd (delete_task "task_1700000000100" scenario_2)) =
      filter (fun t => negb (id t =? "task_1700000000100")%string)
             (records scenario_2).
Proof.
  assert (H : readable scenario_2) by reflexivity.
  split; [exact H|].
  destruct (delete_task_removes_every_match "task_1700000000100" scenario_2 H)
    as (b & Hb & _ & Hrec & _).
  exists b. split; assumption.
Defined.

Lemma filter_idempotent {A} (f : A -> bool) (l : list A) :
  filter f (filter f l) = filter f l.
Proof.
  induction l as [|x l IH]; simpl; [reflexivity|].
  destruct (f x) eqn:Hx; simpl; now rewrite ?Hx, IH.
Qed.

(** [X2] Deleting twice: on a store that parses, the second [delete_task] of
    the same id answers [False] and leaves every file exactly as the first
    one left it. *)
Theorem delete_task_twice (task_id : string) (w : world) :
  readable w ->
  delete_task task_id (snd (delete_task task_id w)) =
  (Ret false, snd (delete_task task_id w)).
Proof.
  intros Hr. rewrite (delete_task_result _ _ Hr). cbn [snd].
  rewrite delete_task_result by (unfold readable; simpl; apply parses_map_Entry).
  rewrite records_rewritten, filter_idempotent. cbn [completed_file executor_calls].
  f_equal. f_equal.
  assert (deleted_of task_id
            (filter (fun t => negb (id t =? task_id)%string) (records w)) None
          = None) as ->; [|reflexivity].
  apply deleted_of_none. intros t Hin. apply filter_In in Hin.
  destruct Hin as [_ Hid]. now apply negb_true_iff, String.eqb_neq in Hid.
Qed.

Lemma delete_task_twice_witness :
  readable scenario_2 /\
  fst (delete_task "task_1700000000100"
         (snd (delete_task "task_1700000000100" scenario_2))) = Ret false.
Proof.
  assert (H : readable scenario_2) by reflexivity.
  split; [exact H|].
  now rewrite (delete_task_twice "task_1700000000100" scenario_2 H).
Defined.

(** ** A line that does not parse, seen from the writers *)

Lemma delete_loop_corrupt (task_id : string) (lines : list line) (msg : string) :
  first_corrupt lines = Some msg ->
  forall tasks d, delete_loop task_id lines tasks d = Exn (JSONDecodeError msg).
Proof.
  induction lines as [|[|t|m] lines IH]; simpl; intros Hc tasks d;
    try discriminate; auto.
  - destruct (negb (id t =? task_id)%string); auto.
  - now injection Hc as ->.
Qed.

Lemma get_next_task_corrupt (w : world) (msg : string) :
  first_corrupt (queue_lines w) = Some msg ->
  get_next_task w = (Exn (JSONDecodeError msg), w).
Proof.
  unfold queue_lines, get_next_task.
  destruct w as [[lines|] arch calls]; run_M; [|discriminate].
  intros Hc. now rewrite (read_loop_corrupt _ _ _ Hc).
Qed.

(** [X3] When a line of the queue file does not parse, [update_task_status],
    [delete_task], the run of a task and a turn of the loop all raise the
    decoding error at their first read: the queue file is not rewritten,
    nothing is archived and the Executor is not called. *)
Theorem corrupt_record_blocks_writers
    (w : world) (m now task_id status_ : string) (kw : kwargs)
    (exec : executor) (clk : clock) (task_ : task_obj) :
  In (Corrupt m) (queue_lines w) ->
  exists msg,
    In (Corrupt msg) (queue_lines w) /\
    update_task_status now task_id status_ kw w = (Exn (JSONDecodeError msg), w) /\
    delete_task task_id w = (Exn (JSONDecodeError msg), w) /\
    run_task exec clk task_ w = (Exn (JSONDecodeError msg), w) /\
    loop_iteration exec clk w = (Exn (JSONDecodeError msg), w).
Proof.
  intros Hin. destruct (first_corrupt_In _ _ Hin) as (msg & Hf & Hin').
  exists msg. split; [assumption|].
  split; [now apply update_task_status_corrupt|]. split; [|split].
  - revert Hf. unfold queue_lines, delete_task.
    destruct w as [[lines|] arch calls]; run_M; [|discriminate].
    intros Hf. now rewrite (delete_loop_corrupt _ _ _ Hf).
  - unfold run_task, mark_in_progress, bind.
    now rewrite (update_task_status_corrupt _ _ _ _ _ _ Hf).
  - unfold loop_iteration, bind. now rewrite (get_next_task_corrupt _ _ Hf).
Qed.

Lemma corrupt_record_blocks_writers_witness :
  In (Corrupt "Unterminated string starting at: line 1 column 9 (char 8)")
     (queue_lines torn_store) /\
  exists msg,
    delete_task "task_1700000000100" torn_store =
    (Exn (JSONDecodeError msg), torn_store).
Proof.
  assert (H : In (Corrupt "Unterminated string starting at: line 1 column 9 (char 8)")
                 (queue_lines torn_store)) by (right; left; reflexivity).
  split; [exact H|].
  destruct (corrupt_record_blocks_writers torn_store _ "" "task_1700000000100"
              "failed" no_kwargs (fun _ => Raised "") clock_1 task_A H)
    as (msg & _ & _ & Hdel & _).
  exists msg. exact Hdel.
Defined.

(** ** [update_task_status] on an id that is not there *)

Lemma map_apply_update_absent (now task_id status_ : string) (kw : kwargs)
    (ts : list task_obj) :
  (forall t, In t ts -> id t <> task_id) ->
  map (apply_update now task_id status_ kw) ts = ts.
Proof.
  induction ts as [|x ts IH]; simpl; intros H; [reflexivity|].
  rewrite IH by auto. unfold apply_update.
  destruct (String.eqb_spec (id x) task_id) as [E|N]; [|reflexivity].
  exfalso. apply (H x); auto.
Qed.

(** [X4] On a store that parses and holds no record with the id,
    [update_task_status] returns [None], changes no record and archives
    nothing, whatever the status asked for; it still rewrites the queue file
    (blank lines go, a missing file is created empty). *)
Theorem update_task_status_absent_id
    (now task_id status_ : string) (kw : kwargs) (w : world) :
  readable w ->
  (forall t, In t (records w) -> id t <> task_id) ->
  update_task_status now task_id status_ kw w =
  (Ret None,
   mkWorld (Some (map Entry (records w))) (completed_file w) (executor_calls w)).
Proof.
  intros Hr Habs. rewrite (update_task_status_ok _ _ _ _ _ Hr).
  unfold update_world.
  rewrite (updated_of_absent _ _ _ _ _ None Habs).
  rewrite (map_apply_update_absent _ _ _ _ _ Habs).
  now destruct (status_ =? "completed")%string.
Qed.

Lemma update_task_status_absent_id_witness :
  readable one_pending /\
  fst (update_task_status "2023-11-14T22:14:00" "task_999" "completed"
         no_kwargs one_pending) = Ret None.
Proof.
  assert (H : readable one_pending) by reflexivity.
  split; [exact H|].
  rewrite (update_task_status_absent_id "2023-11-14T22:14:00" "task_999"
             "completed" no_kwargs one_pending H); [reflexivity|].
  intros t [<-|[]]. vm_compute. discriminate.
Defined.

(** ** What no sequence of operations changes *)

Lemma last_cons {A} (l : list A) (a d : A) : last (a :: l) d = last l a.
Proof.
  revert a d. induction l as [|c l IH]; intros a d; [reflexivity|].
  change (last (a :: c :: l) d) with (last (c :: l) d).
  now rewrite (IH c d), (IH c a).
Qed.

Lemma last_app_default {A} (l1 l2 : list A) (d : A) :
  last (l1 ++ l2) d = last l2 (last l1 d).
Proof.
  revert d. induction l1 as [|a l1 IH]; intros d; [reflexivity|].
  rewrite <- app_comm_cons, !last_cons. apply IH.
Qed.

(** Induction over the states of a history: [B] holds between operations,
    [Q] in every state on the way. *)
Lemma history_invariant (B Q : world -> Prop) (allowed : op -> bool) :
  (forall o w, allowed o = true -> B w ->
     Forall Q (snapshots o w) /\ B (last (snapshots o w) w)) ->
  forall ops w,
    forallb allowed ops = true -> B w ->
    Forall Q (history ops w) /\ B (last (history ops w) w).
Proof.
  intros Hstep. induction ops as [|o ops IH]; simpl; intros w Hops Hw.
  - split; [constructor|assumption].
  - apply andb_prop in Hops. destruct Hops as [Ho Hops].
    destruct (Hstep o w Ho Hw) as [HQ HB].
    destruct (IH _ Hops HB) as [HQ' HB'].
    split; [apply Forall_app; now split|].
    now rewrite last_app_default.
Qed.

Lemma attempts_apply_update (now task_id status_ : string) (kw : kwargs)
    (t : task_obj) :
  attempts (apply_update now task_id status_ kw t) = attempts t /\
  priority (apply_update now task_id status_ kw t) = priority t.
Proof.
  unfold apply_update, update_matching.
  destruct (id t =? task_id)%string; [|split; reflexivity].
  destruct (status_ =? "completed")%string; split; reflexivity.
Qed.

Lemma sound_update_world (now task_id status_ : string) (kw : kwargs) (w : world) :
  sound_store w -> sound_store (update_world now task_id status_ kw w).
Proof.
  intros [Hr Hall]. split; [apply readable_update_world|].
  intros t Hin. rewrite records_update_world in Hin.
  apply in_map_iff in Hin. destruct Hin as (x & <- & Hx).
  destruct (attempts_apply_update now task_id status_ kw x) as [-> ->]. auto.
Qed.

Lemma snd_run_op_update (now task_id status_ : string) (kw : kwargs) (w : world) :
  readable w ->
  snd (run_op (UpdateStatus now task_id status_ kw) w) =
  update_world now task_id status_ kw w.
Proof.
  intros Hr. unfold run_op, bind at 1.
  now rewrite (update_task_status_ok _ _ _ _ _ Hr).
Qed.

Lemma sound_snapshots (o : op) (w : world) :
  sound_store w ->
  Forall sound_store (snapshots o w) /\ sound_store (last (snapshots o w) w).
Proof.
  intros Hs. pose proof Hs as [Hr Hall].
  assert (Hone : forall w', sound_store w' ->
            Forall sound_store [w'] /\ sound_store (last [w'] w)).
  { intros w' Hw'. split; [constructor; [assumption|constructor]|assumption]. }
  destruct o as [ms iso tk p tg d|now tid s kw|tid|exec clk].
  - unfold snapshots. rewrite snd_run_op_add. apply Hone.
    split; [now apply readable_after_add|].
    intros t Hin. rewrite records_after_add in Hin.
    apply in_app_or in Hin. destruct Hin as [Hin|[<-|[]]]; [auto|].
    unfold new_task, Py.clamp. simpl. lia.
  - unfold snapshots. rewrite (snd_run_op_update _ _ _ _ _ Hr). apply Hone.
    now apply sound_update_world.
  - unfold snapshots. rewrite snd_run_op_delete, (delete_task_ok _ _ Hr).
    apply Hone. split; [unfold readable; simpl; apply parses_map_Entry|].
    intros t Hin. rewrite records_rewritten in Hin.
    apply filter_In in Hin. now apply Hall.
  - unfold snapshots. rewrite (get_next_task_ok w Hr). cbn [fst].
    destruct (hd_error _) as [m|]; [|now apply Hone].
    rewrite (mark_in_progress_ok _ _ _ Hr).
    set (w1 := update_world (at_stamp clk) (id m) "in_progress"
                            (kw_in_progress clk) w).
    assert (Hs1 : sound_store w1) by now apply sound_update_world.
    rewrite (execute_and_record_ok _ _ _ _ (proj1 Hs1)). cbn [snd last].
    assert (Hs2 : sound_store
              (update_world (at_stamp clk) (id m) (fst (verdict exec clk m))
                 (snd (verdict exec clk m)) (called m w1))).
    { apply sound_update_world. exact Hs1. }
    split; [|assumption].
    constructor; [assumption|constructor; [assumption|constructor]].
Qed.

(** [X5] Starting from an empty store, whatever the sequence of adds, status
    updates, deletes and turns of the loop, every state the store goes through
    parses (so no operation of the sequence raises), and every record in it
    has [attempts = 0] and a priority from 1 to 5. *)
Theorem attempts_and_priority_never_change (ops : list op) (w : world) :
  In w (empty_store :: history ops empty_store) ->
  readable w /\
  forall t, In t (records w) -> attempts t = 0 /\ 1 <= priority t <= 5.
Proof.
  assert (H0 : sound_store empty_store).
  { split; [reflexivity|]. intros t []. }
  intros [<-|Hin]; [exact H0|].
  assert (Hops : forallb (fun _ : op => true) ops = true)
    by now apply forallb_forall.
  pose proof (proj1 (history_invariant sound_store sound_store (fun _ => true)
                       (fun o w _ Hw => sound_snapshots o w Hw)
                       ops empty_store Hops H0)) as Hall.
  rewrite Forall_forall in Hall. now apply Hall.
Qed.

Lemma attempts_and_priority_never_change_witness :
  In scenario_3 (empty_store :: history add_then_dispatch empty_store) /\
  readable scenario_3.
Proof.
  assert (H : In scenario_3 (empty_store :: history add_then_dispatch empty_store)).
  { right. right. right. left. vm_compute. reflexivity. }
  split; [exact H|].
  exact (proj1 (attempts_and_priority_never_change add_then_dispatch scenario_3 H)).
Defined.

(** ** [add_task] seen from the scheduler *)

Section SortSnoc.
Context {A K : Type}.
Variable key : A -> K.
Variable lt : K -> K -> bool.
Hypothesis lt_trans : forall a b c,
  lt a b = true -> lt b c = true -> lt a c = true.
Hypothesis lt_neg_trans : forall a b c,
  lt a b = false -> lt b c = false -> lt a c = false.

Lemma hd_insert (a : A) (s : list A) :
  hd_error (Py.insert key lt a s) =
  Some (match hd_error s with
        | None => a
        | Some y => if lt (key y) (key a) then y else a
        end).
Proof.
  destruct s as [|y s]; simpl; [reflexivity|].
  now destruct (lt (key y) (key a)).
Qed.

(** The head of the sorted list after one more element came in at the end:
    the newcomer takes the head only when it is strictly below it. *)
Lemma hd_sort_snoc (l : list A) (x : A) :
  hd_error (Py.sort key lt (l ++ [x])) =
  Some (match hd_error (Py.sort key lt l) with
        | None => x
        | Some m => if lt (key x) (key m) then x else m
        end).
Proof.
  induction l as [|a l IH]; simpl; [reflexivity|].
  rewrite !hd_insert, IH.
  destruct (hd_error (Py.sort key lt l)) as [m|]; [|reflexivity].
  destruct (lt (key x) (key m)) eqn:Hxm, (lt (key m) (key a)) eqn:Hma;
    rewrite ?Hxm; try reflexivity.
  - now rewrite (lt_trans _ _ _ Hxm Hma).
  - now rewrite (lt_neg_trans _ _ _ Hxm Hma).
Qed.
End SortSnoc.

Lemma pending_after_add (now_ms : Z) (now_iso task_ : string) (priority_ : Z)
    (tags_ : list string) (description_ : string) (w : world) :
  filter is_pending
    (records (snd (add_task now_ms now_iso task_ priority_ tags_ description_ w))) =
  filter is_pending (records w) ++
  [new_task now_ms now_iso task_ priority_ tags_ description_].
Proof. rewrite records_after_add, filter_app. reflexivity. Qed.

(** [X6] Adding a task to a store that parses changes the scheduler's choice
    only when the new task goes first: with nothing pending the new task is
    next; otherwise the task that was next stays next unless the new one has
    a strictly higher priority (after clamping), or the same priority and a
    strictly earlier [created_at]. *)
Theorem add_task_keeps_next_unless_higher
    (now_ms : Z) (now_iso task_ : string) (priority_ : Z)
    (tags_ : list string) (description_ : string) (w : world) :
  readable w ->
  let w' := snd (add_task now_ms now_iso task_ priority_ tags_ description_ w) in
  let new := new_task now_ms now_iso task_ priority_ tags_ description_ in
  (fst (get_next_task w) = Ret None -> fst (get_next_task w') = Ret (Some new)) /\
  (forall m, fst (get_next_task w) = Ret (Some m) ->
     fst (get_next_task w') =
     Ret (Some (if (priority m <? Py.clamp priority_) ||
                   ((priority m =? Py.clamp priority_) &&
                    Py.str_lt now_iso (created_at m))
                then new else m))).
Proof.
  intros Hr w' new.
  assert (Hr' : readable w') by now apply readable_after_add.
  rewrite (get_next_task_ok w Hr), (get_next_task_ok w' Hr'). cbn [fst].
  unfold w'. rewrite pending_after_add.
  rewrite (hd_sort_snoc next_key Py.tuple_lt
             PyFacts.tuple_lt_trans PyFacts.tuple_lt_neg_trans).
  fold new. split.
  - now intros [= ->].
  - intros m [= ->]. do 2 f_equal.
    unfold Py.tuple_lt, next_key, new, new_task. cbn [fst snd priority created_at].
    destruct (Z.eqb_spec (- Py.clamp priority_) (- priority m)) as [E|N].
    + assert (priority m = Py.clamp priority_) as Hp by lia.
      rewrite Hp, Z.ltb_irrefl, Z.eqb_refl. reflexivity.
    + destruct (Z.eqb_spec (priority m) (Py.clamp priority_)) as [E'|N']; [lia|].
      rewrite andb_false_l, orb_false_r.
      destruct (Z.ltb_spec (- Py.clamp priority_) (- priority m)),
               (Z.ltb_spec (priority m) (Py.clamp priority_)); try lia;
        reflexivity.
Qed.

Lemma add_task_keeps_next_unless_higher_witness :
  readable one_pending /\
  fst (get_next_task
         (snd (add_task 1700000000200 "2023-11-14T22:13:20.200000" "B" 3 [] ""
                 one_pending))) = Ret (Some task_A).
Proof.
  assert (H : readable one_pending) by reflexivity.
  split; [exact H|].
  exact (proj2 (add_task_keeps_next_unless_higher
                  1700000000200 "2023-11-14T22:13:20.200000" "B" 3 [] ""
                  one_pending H) task_A eq_refl).
Defined.

(** [X7] Adding a task and deleting it by the id that [add_task] returned: on
    a store that parses and does not hold that id yet, the delete answers
    [True] and the records are those from before the add. *)
Theorem add_then_delete_restores_records
    (now_ms : Z) (now_iso task_ : string) (priority_ : Z)
    (tags_ : list string) (description_ : string) (w : world) :
  readable w ->
  (forall t, In t (records w) -> id t <> task_id_of now_ms) ->
  forall new_id w',
    add_task now_ms now_iso task_ priority_ tags_ description_ w = (Ret new_id, w') ->
    fst (delete_task new_id w') = Ret true /\
    records (snd (delete_task new_id w')) = records w.
Proof.
  intros Hr Hfresh new_id w' Hadd.
  pose proof (readable_after_add now_ms now_iso task_ priority_ tags_
                description_ w Hr) as Hr'.
  pose proof (records_after_add now_ms now_iso task_ priority_ tags_
                description_ w) as Hrec.
  rewrite Hadd in Hr', Hrec. cbn [snd] in Hr', Hrec.
  rewrite add_task_ok in Hadd. injection Hadd as <- _.
  rewrite (delete_task_result _ _ Hr'), Hrec. cbn [fst snd].
  rewrite records_rewritten. split.
  - unfold deleted_of. rewrite fold_left_app. unfold new_task.
    cbn [fold_left id]. now rewrite String.eqb_refl.
  - rewrite filter_app. unfold new_task. cbn [filter id].
    rewrite String.eqb_refl. cbn [negb]. rewrite app_nil_r.
    apply forallb_filter_id. apply forallb_forall. intros t Hin.
    apply negb_true_iff, String.eqb_neq. now apply Hfresh.
Qed.

Lemma add_then_delete_restores_records_witness :
  readable one_pending /\
  records (snd (delete_task "task_1700000000200"
                  (snd (add_task 1700000000200 "2023-11-14T22:13:20.200000"
                          "B" 3 [] "" one_pending)))) = records one_pending.
Proof.
  assert (H : readable one_pending) by reflexivity.
  split; [exact H|].
  refine (proj2 (add_then_delete_restores_records
                   1700000000200 "2023-11-14T22:13:20.200000" "B" 3 [] ""
                   one_pending H _ "task_1700000000200" _ eq_refl)).
  intros t [<-|[]]. vm_compute. discriminate.
Defined.

(** ** The autonomous loop *)

Lemma verdict_terminal (exec : executor) (clk : clock) (m : task_obj) :
  fst (verdict exec clk m) = "completed"%string \/
  fst (verdict exec clk m) = "failed"%string.
Proof.
  unfold verdict. destruct (exec m) as [result|msg]; [|now right].
  destruct (ExecResult.success result); auto.
Qed.

Lemma status_update_matching (now status_ : string) (kw : kwargs) (t : task_obj) :
  status (update_matching now status_ kw t) = status_.
Proof. unfold update_matching. now destruct (status_ =? "completed")%string. Qed.

(** The records of the store after the run of [m]. *)
Lemma records_after_run (exec : executor) (clk : clock) (m : task_obj) (w : world) :
  readable w ->
  Forall2
    (fun t t' =>
       if (id t =? id m)%string
       then id t' = id t /\ status t' = fst (verdict exec clk m)
       else t' = t)
    (records w) (records (snd (run_task exec clk m w))).
Proof.
  intros Hr. rewrite (run_task_ok _ _ _ _ Hr). cbn [snd].
  rewrite records_update_world, records_called, records_update_world, map_map.
  apply Forall2_map_r. intros t _. unfold apply_update.
  destruct (id t =? id m)%string eqn:Hid.
  - rewrite id_update_matching, Hid.
    now rewrite !id_update_matching, status_update_matching.
  - now rewrite Hid.
Qed.

Lemma pending_after_run (exec : executor) (clk : clock) (m : task_obj) (w : world) :
  readable w ->
  filter is_pending (records (snd (run_task exec clk m w))) =
  filter (fun t => negb (id t =? id m)%string) (filter is_pending (records w)).
Proof.
  intros Hr. pose proof (records_after_run exec clk m w Hr) as H.
  induction H as [|t t' l l' Htt' _ IH]; [reflexivity|]. simpl.
  destruct (id t =? id m)%string eqn:Hid.
  - destruct Htt' as [_ Hst].
    assert (is_pending t' = false) as ->.
    { unfold is_pending. rewrite Hst.
      now destruct (verdict_terminal exec clk m) as [-> | ->]. }
    destruct (is_pending t); simpl; rewrite ?Hid; simpl; exact IH.
  - subst t'. destruct (is_pending t); simpl; rewrite ?Hid; simpl; now rewrite IH.
Qed.

Lemma loop_iteration_ok (exec : executor) (clk : clock) (w : world) :
  readable w ->
  loop_iteration exec clk w =
  (Ret tt,
   match hd_error (Py.sort next_key Py.tuple_lt (filter is_pending (records w))) with
   | Some m => snd (run_task exec clk m w)
   | None => w
   end).
Proof.
  intros Hr. unfold loop_iteration, bind. rewrite (get_next_task_ok w Hr).
  destruct (hd_error _) as [m|]; [|reflexivity].
  now rewrite (run_task_ok _ _ _ _ Hr).
Qed.

Lemma readable_after_run (exec : executor) (clk : clock) (m : task_obj) (w : world) :
  readable w -> readable (snd (run_task exec clk m w)).
Proof.
  intros Hr. rewrite (run_task_ok _ _ _ _ Hr). apply readable_update_world.
Qed.

Lemma tuple_lt_irrefl (k : Z * string) : Py.tuple_lt k k = false.
Proof.
  unfold Py.tuple_lt. rewrite Z.eqb_refl. apply PyFacts.str_lt_irrefl.
Qed.

Lemma tuple_lt_asym (k1 k2 : Z * string) :
  Py.tuple_lt k1 k2 = true -> Py.tuple_lt k2 k1 = false.
Proof.
  intros H12. destruct (Py.tuple_lt k2 k1) eqn:H21; [|reflexivity].
  now rewrite <- (tuple_lt_irrefl k1), (PyFacts.tuple_lt_trans _ _ _ H12 H21).
Qed.

(** No pending record goes before the one the scheduler picks. *)
Lemma sort_head_least (l : list task_obj) (m : task_obj) :
  hd_error (Py.sort next_key Py.tuple_lt l) = Some m ->
  In m l /\
  forall u, In u l -> Py.tuple_lt (next_key u) (next_key m) = false.
Proof.
  intros H. destruct (Py.sort next_key Py.tuple_lt l) as [|m' r] eqn:Hs;
    [discriminate|]. injection H as ->.
  destruct (PyFacts.sort_head next_key Py.tuple_lt PyFacts.tuple_lt_trans
              PyFacts.tuple_lt_neg_trans _ _ _ Hs) as (pre & post & -> & Hpre & Hpost).
  split; [apply in_elt|]. intros u Hu. apply in_app_or in Hu.
  destruct Hu as [Hu|[<-|Hu]].
  - now apply tuple_lt_asym, Hpre.
  - apply tuple_lt_irrefl.
  - now apply Hpost.
Qed.

Lemma filter_length_lt {A} (f : A -> bool) (l : list A) (x : A) :
  In x l -> f x = false -> (List.length (filter f l) < List.length l)%nat.
Proof.
  induction l as [|y l IH]; simpl; intros Hin Hx; [destruct Hin|].
  pose proof (filter_length_le f l) as Hle.
  destruct Hin as [->|Hin].
  - rewrite Hx. lia.
  - specialize (IH Hin Hx). destruct (f y); simpl; lia.
Qed.

(** What any number of turns of the loop does to a store that parses. *)
Lemma autonomous_loop_spec (exec : executor) (clks : list clock) :
  forall w, readable w ->
  exists L w',
    autonomous_loop exec clks w = (Ret tt, w') /\
    readable w' /\
    executor_calls w' = executor_calls w ++ L /\
    (forall t, In t L -> In t (filter is_pending (records w))) /\
    StronglySorted
      (fun a b => Py.tuple_lt (next_key b) (next_key a) = false) L /\
    NoDup (map id L) /\
    (forall t, In t (filter is_pending (records w')) ->
       In t (filter is_pending (records w))) /\
    ((List.length (filter is_pending (records w)) <= List.length clks)%nat ->
     filter is_pending (records w') = []).
Proof.
  induction clks as [|clk rest IH]; intros w Hr.
  - exists [], w. simpl. rewrite app_nil_r.
    repeat split; try assumption; try constructor; try (intros t []).
    + auto.
    + intros Hlen. apply length_zero_iff_nil. lia.
  - cbn [autonomous_loop]. unfold bind at 1.
    rewrite (loop_iteration_ok _ _ _ Hr).
    destruct (hd_error _) as [m|] eqn:Hhd.
    + apply sort_head_least in Hhd. destruct Hhd as [Hm Hleast].
      pose proof (readable_after_run exec clk m w Hr) as Hr1.
      pose proof (pending_after_run exec clk m w Hr) as Hp1.
      destruct (IH _ Hr1) as (L & w' & Hrun & Hr' & Hcalls & HL & Hsort & Hnd & Hsub & Hdrain).
      assert (Hsub1 : forall t, In t (filter is_pending
                                        (records (snd (run_task exec clk m w)))) ->
                In t (filter is_pending (records w)) /\ id t <> id m).
      { intros t Ht. rewrite Hp1 in Ht. apply filter_In in Ht.
        destruct Ht as [Ht Hid]. split; [assumption|].
        now apply negb_true_iff, String.eqb_neq in Hid. }
      exists (m :: L), w'. split; [exact Hrun|]. split; [assumption|].
      split.
      { rewrite Hcalls, (run_task_ok _ _ _ _ Hr). cbn [snd executor_calls].
        simpl. now rewrite <- app_assoc. }
      split.
      { intros t [<-|Ht]; [assumption|]. now apply Hsub1, HL. }
      split.
      { constructor; [assumption|]. apply Forall_forall. intros t Ht.
        now apply Hleast, Hsub1, HL. }
      split.
      { simpl. constructor; [|assumption]. intros Hin.
        apply in_map_iff in Hin. destruct Hin as (t & Hid & Ht).
        now apply (proj2 (Hsub1 t (HL t Ht))). }
      split.
      { intros t Ht. now apply Hsub1, Hsub. }
      intros Hlen. apply Hdrain. rewrite Hp1.
      assert (List.length (filter (fun t => negb (id t =? id m)%string)
                             (filter is_pending (records w))) <
              List.length (filter is_pending (records w)))%nat.
      { apply (filter_length_lt _ _ m Hm). now rewrite String.eqb_refl. }
      simpl in Hlen. lia.
    + destruct (IH _ Hr) as (L & w' & Hrun & Hr' & Hcalls & HL & Hsort & Hnd & Hsub & Hdrain).
      exists L, w'. repeat split; try assumption.
      intros Hlen. apply Hdrain.
      destruct (Py.sort next_key Py.tuple_lt (filter is_pending (records w)))
        as [|x r] eqn:Hs; [|discriminate].
      assert (List.length (filter is_pending (records w)) = 0%nat) as ->.
      { now rewrite <- (PyFacts.sort_length next_key Py.tuple_lt), Hs. }
      lia.
Qed.

(** [X8] A failing task does not stop the loop: on a store that parses, any
    number of turns ends normally and leaves a store that parses, whatever the
    Executor does on each task (returns success, returns failure, raises). *)
Theorem autonomous_loop_survives_failures
    (exec : executor) (clks : list clock) (w : world) :
  readable w ->
  fst (autonomous_loop exec clks w) = Ret tt /\
  readable (snd (autonomous_loop exec clks w)).
Proof.
  intros Hr.
  destruct (autonomous_loop_spec exec clks w Hr) as (L & w' & -> & Hr' & _).
  split; [reflexivity|exact Hr'].
Qed.

Lemma autonomous_loop_survives_failures_witness :
  readable scenario_2 /\
  fst (autonomous_loop (fun _ => Raised "boom") [clock_1; clock_1; clock_1]
         scenario_2) = Ret tt.
Proof.
  assert (H : readable scenario_2) by reflexivity.
  split; [exact H|].
  exact (proj1 (autonomous_loop_survives_failures
                  (fun _ => Raised "boom") [clock_1; clock_1; clock_1]
                  scenario_2 H)).
Defined.

(** [X9] The order of execution: on a store that parses, the tasks that the
    loop hands to the Executor are records that were pending when the loop
    started, no id is handed over twice, and they go in scheduling order: a
    task handed over later has no higher priority than an earlier one and, at
    equal priority, no earlier [created_at]. *)
Theorem autonomous_loop_runs_in_priority_order
    (exec : executor) (clks : list clock) (w : world) :
  readable w ->
  exists L,
    executor_calls (snd (autonomous_loop exec clks w)) = executor_calls w ++ L /\
    (forall t, In t L -> In t (records w) /\ status t = "pending"%string) /\
    NoDup (map id L) /\
    StronglySorted
      (fun a b =>
         priority b <= priority a /\
         (priority b = priority a ->
          Py.str_lt (created_at b) (created_at a) = false)) L.
Proof.
  intros Hr.
  destruct (autonomous_loop_spec exec clks w Hr)
    as (L & w' & -> & _ & Hcalls & HL & Hsort & Hnd & _).
  exists L. split; [exact Hcalls|]. split; [|split; [exact Hnd|]].
  - intros t Ht. apply HL, filter_In in Ht. unfold is_pending in Ht.
    now rewrite String.eqb_eq in Ht.
  - clear - Hsort. induction Hsort as [|a l _ IH Ha]; constructor; [exact IH|].
    rewrite Forall_forall in *. intros b Hb.
    now apply tuple_lt_next_key_false, Ha.
Qed.

Lemma autonomous_loop_runs_in_priority_order_witness :
  readable scenario_1 /\
  exists L,
    executor_calls
      (snd (autonomous_loop (fun _ => Raised "boom") [clock_1; clock_1]
              scenario_1)) = executor_calls scenario_1 ++ L /\
    NoDup (map id L).
Proof.
  assert (H : readable scenario_1) by reflexivity.
  split; [exact H|].
  destruct (autonomous_loop_runs_in_priority_order
              (fun _ => Raised "boom") [clock_1; clock_1] scenario_1 H)
    as (L & Hc & _ & Hnd & _).
  exists L. split; assumption.
Defined.

Example scenario_1_execution_order :
  map task (executor_calls
              (snd (autonomous_loop (fun _ => Raised "boom")
                      [clock_1; clock_1; clock_1] scenario_1))) =
  ["write README"; "fix typo"]%string.
Proof. vm_compute. reflexivity. Qed.

(** [X10] The queue drains: on a store that parses, the loop makes no record
    pending that was not pending before, and after at least as many turns as
    there are pending records no record is pending any more. *)
Theorem autonomous_loop_drains_queue
    (exec : executor) (clks : list clock) (w : world) :
  readable w ->
  (forall t, In t (records (snd (autonomous_loop exec clks w))) ->
     status t = "pending"%string ->
     In t (records w)) /\
  ((List.length (filter is_pending (records w)) <= List.length clks)%nat ->
   forall t, In t (records (snd (autonomous_loop exec clks w))) ->
             status t <> "pending"%string).
Proof.
  intros Hr.
  destruct (autonomous_loop_spec exec clks w Hr)
    as (L & w' & Hrun & _ & _ & _ & _ & _ & Hsub & Hdrain).
  rewrite Hrun. cbn [snd].
  assert (Hpend : forall t, In t (records w') -> status t = "pending"%string ->
                            In t (filter is_pending (records w'))).
  { intros t Ht Hst. apply filter_In. split; [assumption|]. unfold is_pending.
    now apply String.eqb_eq. }
  split.
  - intros t Ht Hst. apply Hpend, Hsub, filter_In in Ht; [|assumption].
    apply Ht.
  - intros Hlen t Ht Hst. apply Hpend in Ht; [|assumption].
    now rewrite (Hdrain Hlen) in Ht.
Qed.

Lemma autonomous_loop_drains_queue_witness :
  readable scenario_2 /\
  forall t,
    In t (records (snd (autonomous_loop (fun _ => Raised "boom")
                          [clock_1; clock_1] scenario_2))) ->
    status t <> "pending"%string.
Proof.
  assert (H : readable scenario_2) by reflexivity.
  split; [exact H|].
  apply (proj2 (autonomous_loop_drains_queue _ _ _ H)). vm_compute. lia.
Defined.

(** ** The archive *)

(** [X24] The archive keeps one copy per call: on a store that parses and
    holds the id, marking a task completed twice appends two records with
    that id to the archive, the second call being no different from the
    first. *)
Theorem completed_twice_archived_twice
    (now now' task_id : string) (kw kw' : kwargs) (w : world) :
  readable w ->
  (exists t, In t (records w) /\ id t = task_id) ->
  exists u1 u2,
    completed_file
      (snd (update_task_status now' task_id "completed" kw'
              (snd (update_task_status now task_id "completed" kw w)))) =
      completed_file w ++ [u1; u2] /\
    id u1 = task_id /\ id u2 = task_id /\
    status u1 = "completed"%string /\ status u2 = "completed"%string.
Proof.
  intros Hr (t & Hin & Hid).
  rewrite (update_task_status_ok _ _ _ _ _ Hr). cbn [snd].
  rewrite update_task_status_ok by apply readable_update_world. cbn [snd].
  destruct (updated_of_present now task_id "completed" kw (records w))
    as (t1 & _ & Hid1 & Hu1); [eauto|].
  destruct (updated_of_present now' task_id "completed" kw'
              (records (update_world now task_id "completed" kw w)))
    as (t2 & _ & Hid2 & Hu2).
  { rewrite records_update_world.
    exists (apply_update now task_id "completed" kw t).
    split; [now apply in_map|]. now rewrite id_apply_update. }
  unfold update_world at 1. cbn [completed_file String.eqb Ascii.eqb Bool.eqb].
  rewrite Hu2. unfold update_world at 1.
  cbn [completed_file String.eqb Ascii.eqb Bool.eqb]. rewrite Hu1.
  do 2 eexists. split; [now rewrite <- app_assoc|].
  rewrite !id_update_matching, !status_update_matching. auto.
Qed.

Lemma completed_twice_archived_twice_witness :
  readable one_pending /\
  exists u1 u2,
    completed_file
      (snd (update_task_status "2023-11-14T22:15:00" "task_1700000000100"
              "completed" no_kwargs
              (snd (update_task_status "2023-11-14T22:14:00"
                      "task_1700000000100" "completed" no_kwargs one_pending)))) =
      completed_file one_pending ++ [u1; u2].
Proof.
  assert (H : readable one_pending) by reflexivity.
  split; [exact H|].
  destruct (completed_twice_archived_twice
              "2023-11-14T22:14:00" "2023-11-14T22:15:00" "task_1700000000100"
              no_kwargs no_kwargs one_pending H) as (u1 & u2 & Harch & _).
  - exists task_A. split; [left; reflexivity|reflexivity].
  - exists u1, u2. exact Harch.
Defined.

(** ** At most one task in progress *)

Lemma idle_snapshots (o : op) (w : world) :
  is_update o = false ->
  idle_store w ->
  Forall one_in_progress (snapshots o w) /\ idle_store (last (snapshots o w) w).
Proof.
  intros Hop Hs. pose proof Hs as [Hr Hidle].
  assert (Hq : forall w', idle_store w' -> one_in_progress w').
  { intros w' [_ H] t u Ht Hu Hst. exfalso. now apply (H t). }
  assert (Hone : forall w', idle_store w' ->
            Forall one_in_progress [w'] /\ idle_store (last [w'] w)).
  { intros w' Hw'. split; [constructor; [now apply Hq|constructor]|assumption]. }
  destruct o as [ms iso tk p tg d|now tid s kw|tid|exec clk];
    [| discriminate | |].
  - unfold snapshots. rewrite snd_run_op_add. apply Hone.
    split; [now apply readable_after_add|].
    intros t Hin. rewrite records_after_add in Hin.
    apply in_app_or in Hin. destruct Hin as [Hin|[<-|[]]]; [auto|discriminate].
  - unfold snapshots. rewrite snd_run_op_delete, (delete_task_ok _ _ Hr).
    apply Hone. split; [unfold readable; simpl; apply parses_map_Entry|].
    intros t Hin. rewrite records_rewritten in Hin.
    apply filter_In in Hin. now apply Hidle.
  - unfold snapshots. rewrite (get_next_task_ok w Hr). cbn [fst].
    destruct (hd_error _) as [m|]; [|now apply Hone].
    rewrite (mark_in_progress_ok _ _ _ Hr).
    set (w1 := update_world (at_stamp clk) (id m) "in_progress"
                            (kw_in_progress clk) w).
    assert (Hr1 : readable w1) by apply readable_update_world.
    rewrite (execute_and_record_ok _ _ _ _ Hr1). cbn [snd last].
    assert (H1 : forall t, In t (records w1) ->
                 status t = "in_progress"%string -> id t = id m).
    { intros t Hin Hst. unfold w1 in Hin. rewrite records_update_world in Hin.
      apply in_map_iff in Hin. destruct Hin as (x & <- & Hx).
      rewrite id_apply_update.
      destruct (String.eqb_spec (id x) (id m)) as [E|N]; [assumption|].
      exfalso. apply (Hidle x Hx). revert Hst. unfold apply_update.
      apply String.eqb_neq in N. now rewrite N. }
    split.
    + constructor.
      * intros t u Ht Hu Hst Hsu. now rewrite (H1 t Ht Hst), (H1 u Hu Hsu).
      * constructor; [|constructor]. apply Hq.
        split; [apply readable_update_world|].
        intros t Hin Hst. rewrite records_update_world, records_called in Hin.
        apply in_map_iff in Hin. destruct Hin as (y & <- & Hy).
        revert Hst. unfold apply_update.
        destruct (String.eqb_spec (id y) (id m)) as [E|N].
        -- rewrite status_update_matching.
           now destruct (verdict_terminal exec clk m) as [-> | ->].
        -- intros Hst. apply N. now apply H1.
    + split; [apply readable_update_world|].
      intros t Hin Hst. rewrite records_update_world, records_called in Hin.
      apply in_map_iff in Hin. destruct Hin as (y & <- & Hy).
      revert Hst. unfold apply_update.
      destruct (String.eqb_spec (id y) (id m)) as [E|N].
      * rewrite status_update_matching.
        now destruct (verdict_terminal exec clk m) as [-> | ->].
      * intros Hst. apply N. now apply H1.
Qed.

(** [X11] Single worker: in every sequence of adds, deletes and turns of the
    loop starting from an empty store, and in every state the store goes
    through, the records that are in progress all carry one id; and once the
    sequence is over no record is in progress. *)
Theorem at_most_one_task_in_progress (ops : list op) :
  forallb (fun o => negb (is_update o)) ops = true ->
  (forall w, In w (empty_store :: history ops empty_store) ->
     forall t u, In t (records w) -> In u (records w) ->
       status t = "in_progress"%string -> status u = "in_progress"%string ->
       id t = id u) /\
  (forall t, In t (records (last (history ops empty_store) empty_store)) ->
     status t <> "in_progress"%string).
Proof.
  intros Hops.
  assert (H0 : idle_store empty_store).
  { split; [reflexivity|]. intros t []. }
  assert (Hstep : forall o w, negb (is_update o) = true -> idle_store w ->
            Forall one_in_progress (snapshots o w) /\
            idle_store (last (snapshots o w) w)).
  { intros o w Ho. apply idle_snapshots. now apply negb_true_iff. }
  destruct (history_invariant idle_store one_in_progress _ Hstep ops
              empty_store Hops H0) as [Hall Hlast].
  split; [|exact (proj2 Hlast)].
  intros w [<-|Hin]; [intros t u []|].
  rewrite Forall_forall in Hall. exact (Hall w Hin).
Qed.

Lemma at_most_one_task_in_progress_witness :
  forallb (fun o => negb (is_update o)) add_then_dispatch = true /\
  forall t,
    In t (records (last (history add_then_dispatch empty_store) empty_store)) ->
    status t <> "in_progress"%string.
Proof.
  assert (H : forallb (fun o => negb (is_update o)) add_then_dispatch = true)
    by reflexivity.
  split; [exact H|].
  exact (proj2 (at_most_one_task_in_progress add_then_dispatch H)).
Defined.

(** ** [get_status] *)

Lemma filter_insert_length {A K} (key : A -> K) (lt : K -> K -> bool)
    (f : A -> bool) (x : A) (s : list A) :
  List.length (filter f (Py.insert key lt x s)) =
  List.length (filter f (x :: s)).
Proof.
  induction s as [|y s IH]; [reflexivity|]. simpl.
  destruct (lt (key y) (key x)); [|reflexivity].
  simpl in *. destruct (f y), (f x); simpl in *; lia.
Qed.

Lemma filter_sort_length {A K} (key : A -> K) (lt : K -> K -> bool)
    (f : A -> bool) (l : list A) :
  List.length (filter f (Py.sort key lt l)) = List.length (filter f l).
Proof.
  induction l as [|x l IH]; [reflexivity|]. simpl Py.sort.
  rewrite filter_insert_length. simpl. destruct (f x); simpl; now rewrite IH.
Qed.

Lemma get_all_tasks_pure (status_ : option string) (limit : option Z) (w : world) :
  snd (get_all_tasks status_ limit w) = w.
Proof.
  unfold get_all_tasks. destruct w as [[lines|] arch calls]; run_M; [|reflexivity].
  now destruct (read_loop (status_matches status_) lines []).
Qed.

Lemma filter_all {A} (l : list A) : filter (fun _ => true) l = l.
Proof. induction l as [|x l IH]; simpl; now rewrite ?IH. Qed.

Lemma four_counters_le (f1 f2 f3 f4 : task_obj -> bool) (l : list task_obj) :
  (forall t, (Nat.b2n (f1 t) + Nat.b2n (f2 t) + Nat.b2n (f3 t) + Nat.b2n (f4 t)
              <= 1)%nat) ->
  (List.length (filter f1 l) + List.length (filter f2 l) +
   List.length (filter f3 l) + List.length (filter f4 l) <= List.length l)%nat.
Proof.
  intros H. induction l as [|x l IH]; simpl; [lia|].
  specialize (H x). destruct (f1 x), (f2 x), (f3 x), (f4 x); simpl in *; lia.
Qed.

(** [X12] On a store that parses, [get_status] writes nothing; [total_tasks]
    is the number of records, [queue_size], [in_progress] and [failed_tasks]
    are the numbers of records with that status, [completed_today] counts
    completed records only (those whose [completed_at] is present, not empty
    and of today), and the four counters never add up to more than the
    total. *)
Theorem get_status_counts
    (same_day : string -> bool) (now : string) (cfg : config) (w : world) :
  readable w ->
  exists s,
    get_status same_day now cfg w = (Ret s, w) /\
    total_tasks s = List.length (records w) /\
    queue_size s = List.length (filter (has_status "pending") (records w)) /\
    in_progress s = List.length (filter (has_status "in_progress") (records w)) /\
    failed_tasks s = List.length (filter (has_status "failed") (records w)) /\
    completed_today s =
      List.length (filter (fun t => has_status "completed" t &&
                                    _is_today same_day (completed_at t))
                          (records w)) /\
    (completed_today s <=
       List.length (filter (has_status "completed") (records w)))%nat /\
    (queue_size s + in_progress s + completed_today s + failed_tasks s
       <= total_tasks s)%nat.
Proof.
  intros Hr. unfold get_status, bind.
  rewrite (get_all_tasks_ok None None w Hr). unfold limited, Py.sort_reverse.
  cbn [status_matches]. rewrite filter_all.
  eexists. split; [reflexivity|]. cbn [total_tasks queue_size in_progress
    failed_tasks completed_today].
  rewrite !filter_sort_length, PyFacts.sort_length.
  repeat split.
  - induction (records w) as [|x l IH]; simpl; [lia|].
    destruct (has_status "completed" x), (_is_today same_day (completed_at x));
      simpl; lia.
  - pose proof (four_counters_le (has_status "pending") (has_status "in_progress")
                  (fun t => has_status "completed" t &&
                            _is_today same_day (completed_at t))
                  (has_status "failed") (records w)) as H.
    assert (forall t,
      (Nat.b2n (has_status "pending" t) + Nat.b2n (has_status "in_progress" t) +
       Nat.b2n (has_status "completed" t && _is_today same_day (completed_at t)) +
       Nat.b2n (has_status "failed" t) <= 1)%nat) as Hdisj.
    { intros t. unfold has_status.
      destruct (String.eqb_spec (status t) "pending") as [E|_];
        [rewrite E; simpl; lia|].
      destruct (String.eqb_spec (status t) "in_progress") as [E|_];
        [rewrite E; simpl; lia|].
      destruct (String.eqb_spec (status t) "failed") as [E|_];
        [rewrite E; simpl; lia|].
      destruct ((status t =? "completed")%string &&
                _is_today same_day (completed_at t)); simpl; lia. }
    specialize (H Hdisj). lia.
Qed.

Lemma get_status_counts_witness :
  readable scenario_3 /\
  exists s,
    get_status (fun _ => true) "2023-11-14T23:00:00"
               (mkConfig 30 3 true "info" "token") scenario_3 =
      (Ret s, scenario_3) /\
    total_tasks s = 1%nat /\ failed_tasks s = 1%nat.
Proof.
  assert (H : readable scenario_3) by reflexivity.
  split; [exact H|].
  destruct (get_status_counts (fun _ => true) "2023-11-14T23:00:00"
              (mkConfig 30 3 true "info" "token") scenario_3 H)
    as (s & Hs & Ht & _ & _ & Hf & _).
  exists s. split; [exact Hs|]. split; [exact Ht|exact Hf].
Defined.

(** ** The web API *)

Lemma updated_of_none (now task_id status_ : string) (kw : kwargs)
    (ts : list task_obj) :
  updated_of now task_id status_ kw ts None = None ->
  forall t, In t ts -> id t <> task_id.
Proof.
  intros Hnone t Hin Hid.
  destruct (updated_of_present now task_id status_ kw ts) as (u & _ & _ & Hu);
    [eauto|]. congruence.
Qed.

Lemma filter_absent (task_id : string) (ts : list task_obj) :
  (forall t, In t ts -> id t <> task_id) ->
  filter (fun t => negb (id t =? task_id)%string) ts = ts.
Proof.
  intros H. apply forallb_filter_id, forallb_forall. intros t Hin.
  apply negb_true_iff, String.eqb_neq. now apply H.
Qed.

Lemma get_status_pure (same_day : string -> bool) (now : string) (cfg : config)
    (w : world) :
  snd (get_status same_day now cfg w) = w.
Proof.
  unfold get_status, bind. pose proof (get_all_tasks_pure None None w) as H.
  destruct (get_all_tasks None None w) as [[tasks|e] w']; simpl in *; now subst.
Qed.

Lemma readable_or_corrupt (w : world) :
  readable w \/ exists msg, first_corrupt (queue_lines w) = Some msg.
Proof.
  unfold readable. destruct (parses (queue_lines w)) eqn:Hp; [now left|].
  right. now apply first_corrupt_parses.
Qed.

(** [X13] Whatever the request and the state of the store, a route that does
    not answer 200 has changed no record, archived nothing and emitted no
    event; the two GET routes never write; a POST, DELETE or PUT that answers
    200 emits exactly one event; and when the task manager could not be set up
    every route answers 500 and touches nothing. *)
Theorem api_errors_change_nothing (srv : server) (r : request) (w : world) :
  (code (fst (fst (serve srv r w))) <> 200 ->
   records (snd (serve srv r w)) = records w /\
   completed_file (snd (serve srv r w)) = completed_file w /\
   snd (fst (serve srv r w)) = []) /\
  (is_read r = true ->
   snd (serve srv r w) = w /\ snd (fst (serve srv r w)) = []) /\
  (is_read r = false -> code (fst (fst (serve srv r w))) = 200 ->
   exists e, snd (fst (serve srv r w)) = [e]) /\
  (task_manager srv = false ->
   code (fst (fst (serve srv r w))) = 500 /\ snd (serve srv r w) = w).
Proof.
  destruct srv as [[|] sdk].
  2:{ destruct r; simpl; repeat split; try discriminate; intros; discriminate. }
  destruct r as [same_day now cfg|status_ limit|now_ms now_iso data|task_id
                 |now task_id data]; cbn [serve is_read].
  - unfold api_status, guarded. cbn [task_manager negb].
    pose proof (get_status_pure same_day now cfg w) as Hp.
    destruct (get_status same_day now cfg w) as [[s|e] w']; simpl in *; subst w';
      repeat split; try discriminate; intros; congruence.
  - unfold api_tasks, guarded. cbn [task_manager negb].
    pose proof (get_all_tasks_pure status_ limit w) as Hp.
    destruct (get_all_tasks status_ limit w) as [[s|e] w']; simpl in *; subst w';
      repeat split; try discriminate; intros; congruence.
  - unfold api_add_task, guarded, caught. cbn [task_manager negb].
    destruct data as [msg| |msg|[|] msg|[[task_|] [[n|msg]|] tg d]];
      try (simpl; repeat split; try discriminate; intros; congruence);
      cbn [get_default add_task_json]; rewrite add_task_ok; simpl;
      repeat split; try discriminate; try congruence; eauto.
  - unfold api_delete_task, guarded. cbn [task_manager negb].
    destruct (readable_or_corrupt w) as [Hr|(msg & Hc)].
    + rewrite (delete_task_result _ _ Hr).
      pose proof (deleted_of_none task_id (records w)) as Hn.
      destruct (deleted_of task_id (records w) None) as [d|]; simpl.
      * repeat split; try discriminate; try congruence; eauto.
      * rewrite records_rewritten, (filter_absent _ _ (proj1 Hn eq_refl)).
        repeat split; try discriminate; intros; discriminate.
    + assert (delete_task task_id w = (Exn (JSONDecodeError msg), w)) as ->.
      { revert Hc. unfold queue_lines, delete_task.
        destruct w as [[lines|] arch calls]; run_M; [|discriminate].
        intros Hf. now rewrite (delete_loop_corrupt _ _ _ Hf). }
      simpl. repeat split; try discriminate; intros; discriminate.
  - unfold api_update_task_status_route, guarded, caught, api_update_task_status.
    cbn [task_manager negb].
    destruct data as [msg| |msg|[|] msg|[[status_|]]];
      try (simpl; repeat split; try discriminate; intros; discriminate).
    destruct (readable_or_corrupt w) as [Hr|(msg & Hc)].
    + rewrite (update_task_status_ok _ _ _ _ _ Hr).
      destruct (updated_of now task_id status_ no_kwargs (records w) None)
        as [u|] eqn:Hu.
      * simpl. repeat split; try discriminate; try congruence; eauto.
      * pose proof (updated_of_none _ _ _ _ _ Hu) as Habs.
        cbn [fst snd code]. rewrite records_update_world.
        rewrite (map_apply_update_absent _ _ _ _ _ Habs).
        unfold update_world. rewrite Hu. cbn [completed_file].
        repeat split; try discriminate;
          try (now destruct (status_ =? "completed")%string);
          intros; discriminate.
    + rewrite (update_task_status_corrupt _ _ _ _ _ _ Hc). simpl.
      repeat split; try discriminate; intros; discriminate.
Qed.

Lemma existsb_id_false (task_id : string) (ts : list task_obj) :
  existsb (fun t => (id t =? task_id)%string) ts = false <->
  forall t, In t ts -> id t <> task_id.
Proof.
  split.
  - intros H t Hin Hid.
    assert (existsb (fun t => (id t =? task_id)%string) ts = true) as H';
      [|congruence].
    apply existsb_exists. exists t. split; [assumption|]. now apply String.eqb_eq.
  - intros H. destruct (existsb _ ts) eqn:E; [|reflexivity].
    apply existsb_exists in E. destruct E as (t & Hin & Hid).
    apply String.eqb_eq in Hid. now destruct (H t Hin).
Qed.

Lemma delete_task_corrupt (task_id msg : string) (w : world) :
  first_corrupt (queue_lines w) = Some msg ->
  delete_task task_id w = (Exn (JSONDecodeError msg), w).
Proof.
  unfold queue_lines, delete_task.
  destruct w as [[lines|] arch calls]; run_M; [|discriminate].
  intros Hf. now rewrite (delete_loop_corrupt _ _ _ Hf).
Qed.

(** [X14] The status codes, with the task manager set up, for every body of
    the model and every state of the store.  POST answers 500 when
    [get_json()] raises, when the body is [true] or a number other than 0,
    when it is a text or an array that has ['task'] in it, and when it is an
    object with a task whose priority has no order with an integer; it answers
    400 when the body is falsy, a text or an array without ['task'], or an
    object without the key; and 200 otherwise, whatever the store holds.
    DELETE answers 500 when a line of the queue file does not parse, and
    otherwise 200 when a record has the id and 404 when none has.  PUT reads
    the body as POST does, with the key ['status']; given a status, whatever
    its text, it answers 500, 200 or 404 as DELETE does. *)
Theorem api_status_codes (srv : server) (w : world) :
  task_manager srv = true ->
  (forall now_ms now_iso data,
     code (fst (fst (api_add_task srv now_ms now_iso data w))) =
     match data with
     | json_raises _ | json_scalar _ | json_sequence true _ => 500
     | json_falsy | json_sequence false _ => 400
     | json_object o =>
         match req_task o, req_priority o with
         | None, _ => 400
         | Some _, Some (priority_unordered _) => 500
         | Some _, _ => 200
         end
     end) /\
  (forall task_id,
     code (fst (fst (api_delete_task srv task_id w))) =
     if parses (queue_lines w)
     then if existsb (fun t => (id t =? task_id)%string) (records w)
          then 200 else 404
     else 500) /\
  (forall now task_id data,
     code (fst (fst (api_update_task_status_route srv now task_id data w))) =
     match data with
     | json_raises _ | json_scalar _ | json_sequence true _ => 500
     | json_falsy | json_sequence false _ => 400
     | json_object o =>
         match req_status o with
         | None => 400
         | Some _ =>
             if parses (queue_lines w)
             then if existsb (fun t => (id t =? task_id)%string) (records w)
                  then 200 else 404
             else 500
         end
     end).
Proof.
  intros Hsrv. split; [|split].
  - intros now_ms now_iso data. unfold api_add_task, guarded, caught.
    rewrite Hsrv. cbn [negb].
    destruct data as [msg| |msg|[|] msg|[[task_|] [[n|msg]|] tg d]];
      try reflexivity;
      cbn [get_default add_task_json]; now rewrite add_task_ok.
  - intros task_id. unfold api_delete_task, guarded. rewrite Hsrv. cbn [negb].
    destruct (readable_or_corrupt w) as [Hr|(msg & Hc)].
    + rewrite Hr, (delete_task_result _ _ Hr).
      pose proof (deleted_of_none task_id (records w)) as Hn.
      pose proof (existsb_id_false task_id (records w)) as He.
      destruct (deleted_of task_id (records w) None) as [d|].
      * destruct (existsb _ (records w)); [reflexivity|].
        assert (Some d = None) as Hd by (apply Hn, He; reflexivity).
        discriminate Hd.
      * now rewrite (proj2 He (proj1 Hn eq_refl)).
    + rewrite (delete_task_corrupt _ _ _ Hc).
      destruct (parses (queue_lines w)) eqn:Hp; [|reflexivity].
      destruct (first_corrupt_split _ _ Hc) as (before & after & Hl & _).
      exfalso. revert Hp. rewrite Hl. clear.
      induction before as [|[|t|m] before IH]; simpl; auto; discriminate.
  - intros now task_id data.
    unfold api_update_task_status_route, guarded, caught, api_update_task_status.
    rewrite Hsrv. cbn [negb].
    destruct data as [msg| |msg|[|] msg|[[status_|]]]; try reflexivity.
    cbn [req_status].
    destruct (readable_or_corrupt w) as [Hr|(msg & Hc)].
    + rewrite Hr, (update_task_status_ok _ _ _ _ _ Hr).
      pose proof (existsb_id_false task_id (records w)) as He.
      destruct (updated_of now task_id status_ no_kwargs (records w) None)
        as [u|] eqn:Hu.
      * destruct (existsb _ (records w)); [reflexivity|].
        rewrite (updated_of_absent _ _ _ _ _ None (proj1 He eq_refl)) in Hu.
        discriminate Hu.
      * now rewrite (proj2 He (updated_of_none _ _ _ _ _ Hu)).
    + rewrite (update_task_status_corrupt _ _ _ _ _ _ Hc).
      destruct (parses (queue_lines w)) eqn:Hp; [|reflexivity].
      destruct (first_corrupt_split _ _ Hc) as (before & after & Hl & _).
      exfalso. revert Hp. rewrite Hl. clear.
      induction before as [|[|t|m] before IH]; simpl; auto; discriminate.
Qed.

Lemma api_status_codes_witness :
  task_manager (mkServer true true) = true /\
  code (fst (fst (api_add_task (mkServer true true) 1700000000200
                    "2023-11-14T22:13:20.200000"
                    (json_object
                       (mkAddRequest (Some "B")
                          (Some (priority_unordered
                                   "'<' not supported between instances of 'str' and 'int'"))
                          None None))
                    torn_store))) = 500 /\
  code (fst (fst (api_add_task (mkServer true true) 1700000000200
                    "2023-11-14T22:13:20.200000"
                    (json_object
                       (mkAddRequest (Some "B") (Some (priority_int 9)) None None))
                    torn_store))) = 200 /\
  code (fst (fst (api_delete_task (mkServer true true) "task_999" one_pending)))
    = 404 /\
  code (fst (fst (api_delete_task (mkServer true true) "task_1700000000100"
                    torn_store))) = 500.
Proof.
  split; [reflexivity|].
  split; [exact (proj1 (api_status_codes (mkServer true true) torn_store eq_refl)
                   _ _ (json_object _))|].
  split; [exact (proj1 (api_status_codes (mkServer true true) torn_store eq_refl)
                   _ _ (json_object _))|].
  split.
  - exact (proj1 (proj2 (api_status_codes (mkServer true true) one_pending
                           eq_refl)) "task_999"%string).
  - exact (proj1 (proj2 (api_status_codes (mkServer true true) torn_store
                           eq_refl)) "task_1700000000100"%string).
Defined.

(** ** The legacy mode and the [run] command *)

Lemma first_keyword_values (task_lower : string) :
  In (first_keyword task_lower complexity_keywords 30) [15; 20; 25; 30; 45; 60].
Proof.
  unfold complexity_keywords. cbn [first_keyword].
  repeat (match goal with
          | |- context [if ?b then _ else _] => destruct b
          end; [simpl; tauto|]).
  simpl. tauto.
Qed.

Lemma estimate_execution_time_bounds_aux (lower : string -> string)
    (task_ : task_obj) :
  exists n, _estimate_execution_time lower task_ = Ret n /\ 7 <= n <= 90.
Proof.
  unfold _estimate_execution_time.
  pose proof (first_keyword_values (lower (task task_))) as Hb.
  remember (first_keyword (lower (task task_)) complexity_keywords 30) as b eqn:E.
  clear E. unfold priority_multiplier.
  destruct (priority task_ =? 5); [|destruct (priority task_ =? 4);
    [|destruct (priority task_ =? 3); [|destruct (priority task_ =? 2);
      [|destruct (priority task_ =? 1)]]]];
    simpl in Hb;
    repeat (destruct Hb as [<-|Hb]; [eexists; split; [vm_compute; reflexivity|lia]|]);
    destruct Hb.
Qed.

(** [X16] Whatever the task, its text and its priority,
    [_estimate_execution_time] returns an integer from 7 to 90 seconds (so the
    legacy loop sleeps for at most 60); it never raises. *)
Theorem estimate_execution_time_bounds (lower : string -> string) (task_ : task_obj) :
  exists n,
    _estimate_execution_time lower task_ = Ret n /\ 7 <= n <= 90 /\
    7 <= Z.min n 60 <= 60.
Proof.
  destruct (estimate_execution_time_bounds_aux lower task_) as (n & Hn & Hb).
  exists n. split; [assumption|]. lia.
Qed.

Lemma on_store_get_next_task (d : disk) :
  on_store get_next_task d = (fst (get_next_task (store d)), d).
Proof.
  unfold on_store. rewrite get_next_task_pure. now destruct d.
Qed.

(** [X15] The [run] command does not run anything: whatever the files hold, it
    leaves the task store as it is (the task it announces stays pending and
    the Executor is not called); it only writes the trigger file with the
    task that the scheduler picks; so a second [run] announces the same task
    again. *)
Theorem main_run_leaves_task_pending (now now' : string) (d : disk) :
  store (snd (main_run now d)) = store d /\
  fst (main_run now' (snd (main_run now d))) = fst (main_run now d) /\
  (forall m, fst (get_next_task (store d)) = Ret (Some m) ->
     fst (main_run now d) = Ret (Executing (task m)) /\
     trigger_file (snd (main_run now d)) =
       Some (mkTrigger m now true "claude-tasker")) /\
  (fst (get_next_task (store d)) = Ret None ->
     main_run now d = (Ret No_pending_tasks, d)).
Proof.
  assert (Hrun : forall n d0,
            main_run n d0 =
            match fst (get_next_task (store d0)) with
            | Ret (Some m) =>
                (Ret (Executing (task m)),
                 mkDisk (store d0) (Some (mkTrigger m n true "claude-tasker")))
            | Ret None => (Ret No_pending_tasks, d0)
            | Exn e => (Exn e, d0)
            end).
  { intros n d0. unfold main_run, bindD. rewrite on_store_get_next_task.
    now destruct (fst (get_next_task (store d0))) as [[m|]|e]. }
  assert (Hstore : forall n d0, store (snd (main_run n d0)) = store d0).
  { intros n d0. rewrite Hrun.
    now destruct (fst (get_next_task (store d0))) as [[m|]|e]. }
  split; [apply Hstore|]. split; [|split].
  - rewrite (Hrun now'), Hstore, (Hrun now).
    now destruct (fst (get_next_task (store d))) as [[m|]|e].
  - intros m Hm. rewrite Hrun, Hm. split; reflexivity.
  - intros Hn. now rewrite Hrun, Hn.
Qed.

Lemma main_run_leaves_task_pending_witness :
  fst (get_next_task (store disk_1)) = Ret (Some task_A) /\
  fst (main_run "2023-11-14T22:14:00" disk_1) = Ret (Executing "A") /\
  store (snd (main_run "2023-11-14T22:14:00" disk_1)) = one_pending.
Proof.
  assert (H : fst (get_next_task (store disk_1)) = Ret (Some task_A))
    by reflexivity.
  split; [exact H|].
  destruct (main_run_leaves_task_pending "2023-11-14T22:14:00" "" disk_1)
    as (Hs & _ & Hm & _).
  split; [exact (proj1 (Hm task_A H))|exact Hs].
Defined.

Lemma legacy_iteration_ok (lower : string -> string) (clk : legacy_clock)
    (d : disk) (m : task_obj) (n : Z) :
  readable (store d) ->
  fst (get_next_task (store d)) = Ret (Some m) ->
  _estimate_execution_time lower m = Ret n ->
  legacy_iteration lower clk d =
  (Ret tt,
   mkDisk
     (update_world (lg_stamp clk) (id m) "completed"
        (mkKw None None None None None None (Some n))
        (update_world (lg_stamp clk) (id m) "in_progress"
           (mkKw (Some (lg_start clk)) None None None None None None)
           (store d)))
     (Some (mkTrigger m (lg_trigger clk) true "claude-tasker"))).
Proof.
  intros Hr Hm Hn. unfold legacy_iteration. unfold bindD at 1.
  rewrite on_store_get_next_task, Hm.
  unfold bindD at 1. unfold on_store at 1.
  rewrite (update_task_status_ok _ _ _ _ _ Hr). cbn [fst snd].
  unfold bindD at 1. unfold trigger_claude_execution at 1. cbn [store].
  rewrite Hn. unfold bindD, on_store. cbn [store trigger_file].
  rewrite update_task_status_ok by apply readable_update_world.
  reflexivity.
Qed.

(** [X17] In legacy mode a turn of the loop that finds a pending task always
    ends with that task completed, never failed: on a store that parses, the
    task gets [started_at], [completed_at] and a [duration] from 7 to 90, its
    [attempts] stay as they were, other records are untouched, one record
    with its id goes to the archive, the trigger file names the task, and the
    Executor is not called. *)
Theorem legacy_iteration_always_completes
    (lower : string -> string) (clk : legacy_clock) (d : disk) (m : task_obj) :
  readable (store d) ->
  fst (get_next_task (store d)) = Ret (Some m) ->
  fst (legacy_iteration lower clk d) = Ret tt /\
  Forall2
    (fun t t' =>
       if (id t =? id m)%string
       then id t' = id t /\ status t' = "completed"%string /\
            (exists n, duration t' = Some n /\ 7 <= n <= 90) /\
            started_at t' = Some (lg_start clk) /\
            completed_at t' = Some (lg_stamp clk) /\
            attempts t' = attempts t
       else t' = t)
    (records (store d)) (records (store (snd (legacy_iteration lower clk d)))) /\
  (exists u,
     completed_file (store (snd (legacy_iteration lower clk d))) =
       completed_file (store d) ++ [u] /\
     id u = id m /\ status u = "completed"%string) /\
  executor_calls (store (snd (legacy_iteration lower clk d))) =
    executor_calls (store d) /\
  trigger_file (snd (legacy_iteration lower clk d)) =
    Some (mkTrigger m (lg_trigger clk) true "claude-tasker").
Proof.
  intros Hr Hm.
  destruct (estimate_execution_time_bounds_aux lower m) as (n & Hn & Hbound).
  rewrite (legacy_iteration_ok lower clk d m n Hr Hm Hn). cbn [fst snd store trigger_file].
  split; [reflexivity|]. split; [|split; [|split; reflexivity]].
  - rewrite !records_update_world, map_map. apply Forall2_map_r.
    intros t _. unfold apply_update.
    destruct (id t =? id m)%string eqn:Hid.
    + rewrite id_update_matching, Hid. unfold update_matching. simpl.
      repeat split. eauto.
    + now rewrite Hid.
  - unfold update_world at 1. cbn [completed_file].
    destruct (get_next_task_some _ _ Hr Hm) as [Hin _].
    destruct (updated_of_present (lg_stamp clk) (id m) "completed"
                (mkKw None None None None None None (Some n))
                (records
                   (update_world (lg_stamp clk) (id m) "in_progress"
                      (mkKw (Some (lg_start clk)) None None None None None None)
                      (store d)))) as (t & _ & Hid & ->).
    { rewrite records_update_world.
      exists (apply_update (lg_stamp clk) (id m) "in_progress"
                (mkKw (Some (lg_start clk)) None None None None None None) m).
      split; [now apply in_map|]. apply id_apply_update. }
    eexists. split; [reflexivity|].
    now rewrite id_update_matching, status_update_matching.
Qed.

Lemma legacy_iteration_always_completes_witness :
  readable (store disk_1) /\
  fst (get_next_task (store disk_1)) = Ret (Some task_A) /\
  fst (legacy_iteration (fun s => s) legacy_clock_1 disk_1) = Ret tt.
Proof.
  assert (H : readable (store disk_1)) by reflexivity.
  assert (Hm : fst (get_next_task (store disk_1)) = Ret (Some task_A))
    by reflexivity.
  split; [exact H|]. split; [exact Hm|].
  exact (proj1 (legacy_iteration_always_completes
                  (fun s => s) legacy_clock_1 disk_1 task_A H Hm)).
Defined.

Example legacy_iteration_on_one_pending :
  map (fun t => (status t, duration t, attempts t))
      (records (store (snd (legacy_iteration (fun s => s) legacy_clock_1 disk_1)))) =
  [("completed"%string, Some 30, 0)].
Proof. vm_compute. reflexivity. Qed.

(** ** The reply parser *)

Example parse_one_shell_block :
  _parse_claude_response
    ("I will list the files." ++ newline ++
     "  ```bash" ++ newline ++
     "ls -la   " ++ newline ++
     "# a comment" ++ newline ++
     "   # not seen as a comment" ++ newline ++
     "" ++ newline ++
     "```" ++ newline ++
     "Done.")%string =
  [shell ["ls -la"; "# not seen as a comment"]%string].
Proof. vm_compute. reflexivity. Qed.

(** White space of one, two and three bytes goes from both ends, and only
    from the ends: a tab and U+00A0 in front, U+3000 and a line feed behind. *)
Example strip_unicode_white_space :
  strip (String (ascii_of_nat 9)
          (String (ascii_of_nat 194) (String (ascii_of_nat 160)
            ("a b" ++
             String (ascii_of_nat 227) (String (ascii_of_nat 128)
               (String (ascii_of_nat 128) newline))))))%string = "a b"%string.
Proof. vm_compute. reflexivity. Qed.

Lemma parse_lines_app (l1 l2 : list string) (st : option action * list action) :
  parse_lines (l1 ++ l2) st = parse_lines l2 (parse_lines l1 st).
Proof. apply fold_left_app. Qed.

Lemma closes_false (line : string) :
  closes line = false ->
  opens_shell (strip line) = true \/ opens_python (strip line) = true \/
  opens_file (strip line) = true \/ is_fence (strip line) = false.
Proof.
  unfold closes, opens.
  destruct (opens_shell (strip line)); [now left|].
  destruct (opens_python (strip line)); [now right; left|].
  destruct (opens_file (strip line)); [now right; right; left|].
  simpl. rewrite andb_true_r. now right; right; right.
Qed.

Lemma parse_line_no_closer (line : string) (st : option action * list action) :
  closes line = false -> snd (parse_line line st) = snd st.
Proof.
  intros H. destruct st as [cur acts]. unfold parse_line.
  destruct (opens_shell (strip line)) eqn:H1; [reflexivity|].
  destruct (opens_python (strip line)) eqn:H2; [reflexivity|].
  destruct (opens_file (strip line)) eqn:H3; [reflexivity|].
  destruct (closes_false line H) as [H'|[H'|[H'|H']]]; try congruence.
  rewrite H'. destruct cur as [[cmds|code|path content]|]; try reflexivity.
  now destruct (negb (strip line =? "")%string && negb (String.prefix "#" line)).
Qed.

Lemma parse_lines_no_closer (lines : list string) :
  (forall l, In l lines -> closes l = false) ->
  forall st, snd (parse_lines lines st) = snd st.
Proof.
  induction lines as [|l lines IH]; intros H st; [reflexivity|].
  unfold parse_lines in *. simpl. rewrite IH by (intros; apply H; now right).
  apply parse_line_no_closer, H. now left.
Qed.

Lemma split_lines_not_nil (s : string) : split_lines s <> [].
Proof.
  destruct s as [|c s]; simpl; [discriminate|].
  destruct (nat_of_ascii c =? 10)%nat; [discriminate|].
  destruct (split_lines s); discriminate.
Qed.

(** The lines of two texts joined by a line feed are the lines of the one
    followed by the lines of the other. *)
Lemma split_lines_join (r1 r2 : string) :
  split_lines (r1 ++ newline ++ r2)%string = split_lines r1 ++ split_lines r2.
Proof.
  induction r1 as [|c r1 IH]; [reflexivity|].
  cbn [String.append split_lines]. rewrite IH.
  destruct (nat_of_ascii c =? 10)%nat; [reflexivity|].
  pose proof (split_lines_not_nil r1) as Hne.
  now destruct (split_lines r1).
Qed.

(** [X18] What follows the last closing fence is lost: when no line of [r2]
    closes a block, the reply [r1], a line feed and [r2] gives the actions of
    [r1] alone, so a block that is opened and never closed gives no action;
    and a reply none of whose lines closes a block gives no action at all. *)
Theorem parse_ignores_text_after_last_closing_fence (r1 r2 : string) :
  (forall l, In l (split_lines r2) -> closes l = false) ->
  _parse_claude_response (r1 ++ newline ++ r2)%string = _parse_claude_response r1 /\
  _parse_claude_response r2 = [].
Proof.
  intros H. unfold _parse_claude_response. split.
  - rewrite split_lines_join, parse_lines_app. now apply parse_lines_no_closer.
  - now rewrite parse_lines_no_closer.
Qed.

Lemma parse_ignores_text_after_last_closing_fence_witness :
  (forall l, In l (split_lines ("```python" ++ newline ++ "print(1)")%string) ->
             closes l = false) /\
  _parse_claude_response ("```python" ++ newline ++ "print(1)")%string = [].
Proof.
  assert (H : forall l,
            In l (split_lines ("```python" ++ newline ++ "print(1)")%string) ->
            closes l = false).
  { intros l [<-|[<-|[]]]; vm_compute; reflexivity. }
  split; [exact H|].
  exact (proj2 (parse_ignores_text_after_last_closing_fence "" _ H)).
Defined.

Lemma parse_line_opens (line : string) (cur cur' : option action)
    (acts : list action) :
  opens line = true ->
  parse_line line (cur, acts) = parse_line line (cur', acts).
Proof.
  unfold opens, parse_line.
  destruct (opens_shell (strip line)); [reflexivity|].
  destruct (opens_python (strip line)); [reflexivity|].
  destruct (opens_file (strip line)); [reflexivity|discriminate].
Qed.

(** [X19] A block that is interrupted is discarded: when the lines between a
    point of the reply and an opening fence hold no closing fence, they can
    be dropped without changing the actions; whatever block was open there is
    lost, with the lines it had collected. *)
Theorem parse_discards_interrupted_block
    (response response' : string) (before middle after : list string)
    (opener : string) :
  split_lines response = before ++ middle ++ opener :: after ->
  split_lines response' = before ++ opener :: after ->
  (forall l, In l middle -> closes l = false) ->
  opens opener = true ->
  _parse_claude_response response = _parse_claude_response response'.
Proof.
  intros Hs Hs' Hmid Hop. unfold _parse_claude_response. rewrite Hs, Hs'.
  rewrite !parse_lines_app. f_equal.
  set (st := parse_lines before (None, [])).
  pose proof (parse_lines_no_closer middle Hmid st) as Hsame.
  destruct (parse_lines middle st) as [cur acts]. destruct st as [cur0 acts0].
  simpl in Hsame. subst acts.
  unfold parse_lines. simpl. f_equal. now apply parse_line_opens.
Qed.

Lemma parse_discards_interrupted_block_witness :
  _parse_claude_response
    ("```bash" ++ newline ++ "make" ++ newline ++ "```python" ++ newline ++
     "print(1)" ++ newline ++ "```")%string =
  _parse_claude_response
    ("```python" ++ newline ++ "print(1)" ++ newline ++ "```")%string.
Proof.
  apply (parse_discards_interrupted_block _ _ [] ["```bash"; "make"]%string
           ["print(1)"; "```"]%string "```python"%string).
  - vm_compute. reflexivity.
  - vm_compute. reflexivity.
  - intros l [<-|[<-|[]]]; vm_compute; reflexivity.
  - vm_compute. reflexivity.
Defined.

Lemma prefix_app_l (a b s : string) :
  String.prefix (a ++ b) s = true -> String.prefix a s = true.
Proof.
  revert s. induction a as [|c a IH]; intros s; simpl.
  - now destruct s.
  - destruct s as [|c' s]; simpl; [discriminate|].
    destruct (Ascii.ascii_dec c c'); [apply IH|discriminate].
Qed.

Lemma parse_shell_body (body : list string) :
  (forall l, In l body -> is_fence (strip l) = false) ->
  forall cmds acts,
    parse_lines body (Some (shell cmds), acts) =
    (Some (shell (cmds ++ commands_of body)), acts).
Proof.
  induction body as [|l body IH]; intros H cmds acts.
  - unfold commands_of. simpl. now rewrite app_nil_r.
  - assert (Hl : is_fence (strip l) = false) by (apply H; now left).
    unfold parse_lines in *. cbn [fold_left]. unfold parse_line at 2.
    assert (Hno : forall p, String.prefix ("```" ++ p) (strip l) = false).
    { intros p. destruct (String.prefix ("```" ++ p) (strip l)) eqn:E;
        [|reflexivity].
      apply prefix_app_l in E. unfold is_fence in Hl. congruence. }
    unfold opens_shell, opens_python, opens_file.
    change "```bash"%string with ("```" ++ "bash")%string.
    change "```sh"%string with ("```" ++ "sh")%string.
    change "```python"%string with ("```" ++ "python")%string.
    change "```file:"%string with ("```" ++ "file:")%string.
    rewrite !Hno, Hl.
    cbn [orb]. unfold commands_of. cbn [filter].
    destruct (negb (strip l =? "")%string && negb (String.prefix "#" l)).
    + rewrite IH by (intros; apply H; now right).
      unfold commands_of. cbn [map]. now rewrite <- app_assoc.
    + now rewrite IH by (intros; apply H; now right).
Qed.

(** [X20] One shell block: when the lines of the reply are some lines that
    close nothing, a line opening a bash or sh block, lines without a fence, a
    closing fence, and again lines that close nothing, the reply gives one
    shell action; its commands are the lines of the block, stripped, without
    the lines that are blank and without the lines whose first character is
    [#]. *)
Theorem parse_single_shell_block
    (response : string) (before block after : list string)
    (opener closer : string) :
  split_lines response = before ++ opener :: block ++ closer :: after ->
  (forall l, In l before -> closes l = false) ->
  opens_shell (strip opener) = true ->
  (forall l, In l block -> is_fence (strip l) = false) ->
  closes closer = true ->
  (forall l, In l after -> closes l = false) ->
  _parse_claude_response response = [shell (commands_of block)].
Proof.
  intros Hs Hbefore Hopen Hblock Hclose Hafter.
  unfold _parse_claude_response. rewrite Hs.
  rewrite parse_lines_app.
  pose proof (parse_lines_no_closer before Hbefore (None, [])) as Hb.
  destruct (parse_lines before (None, [])) as [cur acts]. simpl in Hb. subst acts.
  change (opener :: block ++ closer :: after)
    with ([opener] ++ block ++ [closer] ++ after).
  rewrite !parse_lines_app.
  rewrite (parse_lines_no_closer after Hafter).
  assert (parse_lines [opener] (cur, []) = (Some (shell []), [])) as ->.
  { unfold parse_lines. simpl. unfold parse_line. now rewrite Hopen. }
  rewrite (parse_shell_body block Hblock). simpl.
  unfold parse_lines. simpl. unfold parse_line.
  revert Hclose. unfold closes, opens.
  destruct (opens_shell (strip closer)); [now rewrite andb_false_r|].
  destruct (opens_python (strip closer)); [now rewrite andb_false_r|].
  destruct (opens_file (strip closer)); [now rewrite andb_false_r|].
  simpl. rewrite andb_true_r. now intros ->.
Qed.

Lemma parse_single_shell_block_witness :
  _parse_claude_response
    ("Plan:" ++ newline ++ "```sh" ++ newline ++ " make test " ++ newline ++
     "#!x" ++ newline ++ "```" ++ newline ++ "Done.")%string =
  [shell (commands_of [" make test "; "#!x"]%string)].
Proof.
  apply (parse_single_shell_block _ ["Plan:"]%string [" make test "; "#!x"]%string
           ["Done."]%string "```sh"%string "```"%string).
  - vm_compute. reflexivity.
  - intros l [<-|[]]. vm_compute. reflexivity.
  - vm_compute. reflexivity.
  - intros l [<-|[<-|[]]]; vm_compute; reflexivity.
  - vm_compute. reflexivity.
  - intros l [<-|[]]. vm_compute. reflexivity.
Defined.

(** ** The deny list of [_run_shell_command] *)

Lemma prefix_spec (p s : string) :
  String.prefix p s = true <-> exists post, s = (p ++ post)%string.
Proof.
  revert s. induction p as [|c p IH]; intros s.
  - split; [intros _; now exists s|]. intros _. now destruct s.
  - destruct s as [|c' s]; simpl.
    + split; [discriminate|]. intros (post & H). discriminate.
    + destruct (Ascii.ascii_dec c c') as [->|N].
      * rewrite IH. split; intros (post & H); exists post; congruence.
      * split; [discriminate|]. intros (post & H). congruence.
Qed.

(** [needle in s] says that [s] is some text, the needle, and some text. *)
Lemma contains_spec (needle s : string) :
  contains needle s = true <->
  exists pre post, s = (pre ++ needle ++ post)%string.
Proof.
  induction s as [|c s IH]; cbn [contains].
  - destruct (String.prefix needle "") eqn:Hp.
    + split; [intros _|reflexivity].
      apply prefix_spec in Hp. destruct Hp as (post & Hp). now exists ""%string, post.
    + split; [discriminate|]. intros (pre & post & H).
      destruct pre as [|a pre]; [|discriminate].
      assert (String.prefix needle "" = true) as Hp'
        by (apply prefix_spec; exists post; exact H).
      congruence.
  - destruct (String.prefix needle (String c s)) eqn:Hp.
    + split; [intros _|reflexivity].
      apply prefix_spec in Hp. destruct Hp as (post & Hp). now exists ""%string, post.
    + rewrite IH. split.
      * intros (pre & post & ->). now exists (String c pre), post.
      * intros (pre & post & H). destruct pre as [|a pre].
        -- assert (String.prefix needle (String c s) = true) as Hp'
             by (apply prefix_spec; exists post; exact H).
           congruence.
        -- injection H as _ H. now exists pre, post.
Qed.

(** [X21] [_run_shell_command] hands a command to the shell exactly when the
    command holds none of the six texts of the deny list; a command that holds
    one gets the result [Blocked dangerous command: ...] and is not run.  The
    test is on the text alone: every command with the letters [su] next to
    each other anywhere in it is refused. *)
Theorem run_shell_command_deny_list
    (sh : string -> spawned) (command : string) (ran : list string) :
  ((exists dangerous pre post,
      In dangerous dangerous_commands /\
      command = (pre ++ dangerous ++ post)%string) ->
   _run_shell_command sh command ran =
   (mkShellResult (Some ("Blocked dangerous command: " ++ command)%string)
                  None None None None, ran)) /\
  (~ (exists dangerous pre post,
        In dangerous dangerous_commands /\
        command = (pre ++ dangerous ++ post)%string) ->
   snd (_run_shell_command sh command ran) = ran ++ [command]) /\
  (forall pre post,
     snd (_run_shell_command sh (pre ++ "su" ++ post)%string ran) = ran).
Proof.
  assert (Hd : forall c, is_dangerous c = true <->
            exists dangerous pre post,
              In dangerous dangerous_commands /\
              c = (pre ++ dangerous ++ post)%string).
  { intros c. unfold is_dangerous. rewrite existsb_exists. split.
    - intros (d & Hin & Hc). apply contains_spec in Hc.
      destruct Hc as (pre & post & Hc). now exists d, pre, post.
    - intros (d & pre & post & Hin & Hc). exists d. split; [assumption|].
      apply contains_spec. now exists pre, post. }
  unfold _run_shell_command. split; [|split].
  - intros H. apply Hd in H. now rewrite H.
  - intros H. destruct (is_dangerous command) eqn:E.
    + exfalso. now apply H, Hd.
    + now destruct (sh command).
  - intros pre post.
    assert (is_dangerous (pre ++ "su" ++ post)%string = true) as ->;
      [|reflexivity].
    apply Hd. exists "su"%string, pre, post. split; [|reflexivity].
    right. right. now left.
Qed.

Lemma run_shell_command_deny_list_witness :
  (exists dangerous pre post,
     In dangerous dangerous_commands /\
     "git submodule update"%string = (pre ++ dangerous ++ post)%string) /\
  snd (_run_shell_command (fun _ => Exited "" "" 0) "git submodule update" []) = [].
Proof.
  assert (H : exists dangerous pre post,
            In dangerous dangerous_commands /\
            "git submodule update"%string = (pre ++ dangerous ++ post)%string).
  { exists "su"%string, "git "%string, "bmodule update"%string.
    split; [right; right; now left|reflexivity]. }
  split; [exact H|].
  now rewrite (proj1 (run_shell_command_deny_list
                        (fun _ => Exited "" "" 0) "git submodule update" []) H).
Defined.

(** ** [_execute_actions] *)

Lemma run_commands_spec (sh : string -> spawned) (commands : list string) :
  forall results ran,
    snd (run_commands sh commands results ran) =
      ran ++ filter (fun c => negb (is_dangerous c)) commands /\
    List.length (fst (run_commands sh commands results ran)) =
      (List.length results + List.length commands)%nat.
Proof.
  induction commands as [|c commands IH]; intros results ran; simpl.
  - rewrite app_nil_r. split; [reflexivity|lia].
  - unfold _run_shell_command.
    destruct (is_dangerous c); cbn [negb filter].
    + split; [now rewrite (proj1 (IH _ _))|].
      rewrite (proj2 (IH _ _)), length_app. simpl. lia.
    + destruct (sh c) as [out err rc|msg].
      * split; [now rewrite (proj1 (IH _ _)), <- app_assoc|].
        rewrite (proj2 (IH _ _)), length_app. simpl. lia.
      * split; [now rewrite (proj1 (IH _ _)), <- app_assoc|].
        rewrite (proj2 (IH _ _)), length_app. simpl. lia.
Qed.

(** [X22] Through [_execute_actions] the shell receives the commands of the
    shell actions that hold nothing of the deny list, in their order, and
    nothing else; every command, refused or not, and every python or file
    action leaves one result. *)
Theorem execute_actions_runs_only_allowed_commands
    (sh : string -> spawned) (py : string -> run_result)
    (wr : string -> string -> run_result) (actions : list action) :
  snd (_execute_actions sh py wr actions [] []) =
    filter (fun c => negb (is_dangerous c)) (List.concat (map commands_in actions)) /\
  List.length (fst (_execute_actions sh py wr actions [] [])) =
    list_sum (map results_due actions).
Proof.
  assert (H : forall results ran,
    snd (_execute_actions sh py wr actions results ran) =
      ran ++ filter (fun c => negb (is_dangerous c))
                    (List.concat (map commands_in actions)) /\
    List.length (fst (_execute_actions sh py wr actions results ran)) =
      (List.length results + list_sum (map results_due actions))%nat).
  { induction actions as [|[cmds|code|path content] actions IH];
      intros results ran; simpl.
    - rewrite app_nil_r. split; [reflexivity|lia].
    - destruct (run_commands_spec sh cmds results ran) as [Hran Hres].
      destruct (run_commands sh cmds results ran) as [results' ran'].
      simpl in Hran, Hres. destruct (IH results' ran') as [-> ->].
      rewrite Hran, Hres, filter_app, <- app_assoc. split; [reflexivity|lia].
    - destruct (IH (results ++ [python_done (py code)]) ran) as [-> ->].
      rewrite length_app. simpl. split; [reflexivity|lia].
    - destruct (IH (results ++ [file_done path (wr path content)]) ran) as [-> ->].
      rewrite length_app. simpl. split; [reflexivity|lia]. }
  destruct (H [] []) as [-> ->]. split; reflexivity.
Qed.

(** ** From the reply to the status of the task *)

(** [X23] A reply is enough to complete the task: on a store that parses, when
    the SDK call gives a reply text, the run ends with the task completed and
    archived, and [actions_executed] is the number of blocks the parser found
    in the reply, whatever running the actions gave (refused, failed or
    succeeded); a reply none of whose lines closes a block completes the task
    with [actions_executed = 0]. *)
Theorem reply_completes_task_whatever_actions_did
    (reply : task_obj -> string + string) (run : list action -> list string)
    (now_exec : string) (clk : clock) (task_ : task_obj) (response : string)
    (w : world) :
  readable w ->
  In task_ (records w) ->
  reply task_ = inl response ->
  fst (run_task (claude_executor (sdk_attempt reply run) now_exec) clk task_ w)
    = Ret tt /\
  Forall2
    (fun t t' =>
       if (id t =? id task_)%string
       then id t' = id t /\ status t' = "completed"%string /\
            actions_executed t' =
              Some (Z.of_nat (List.length (_parse_claude_response response)))
       else t' = t)
    (records w)
    (records (snd (run_task (claude_executor (sdk_attempt reply run) now_exec)
                            clk task_ w))) /\
  (exists u,
     completed_file
       (snd (run_task (claude_executor (sdk_attempt reply run) now_exec)
                      clk task_ w)) = completed_file w ++ [u] /\
     id u = id task_ /\ status u = "completed"%string) /\
  ((forall l, In l (split_lines response) -> closes l = false) ->
   _parse_claude_response response = []).
Proof.
  intros Hr Hin Hreply.
  set (result := ExecResult.mk true (Some response)
                   (Some (Z.of_nat (List.length
                      (map action_type (_parse_claude_response response)))))
                   (Some (run (_parse_claude_response response))) None now_exec).
  assert (Hv : verdict (claude_executor (sdk_attempt reply run) now_exec) clk task_ =
               ("completed"%string, kw_completed clk result)).
  { unfold verdict, claude_executor, execute_task_autonomously, sdk_attempt.
    now rewrite Hreply. }
  rewrite (run_task_ok _ _ _ _ Hr), Hv. cbn [fst snd].
  split; [reflexivity|]. split; [|split].
  - rewrite records_update_world, records_called, records_update_world, map_map.
    apply Forall2_map_r. intros t _. unfold apply_update.
    destruct (id t =? id task_)%string eqn:Hid.
    + rewrite id_update_matching, Hid. unfold update_matching. simpl.
      rewrite length_map. repeat split.
    + now rewrite Hid.
  - unfold update_world at 1. cbn [completed_file String.eqb Ascii.eqb Bool.eqb].
    destruct (updated_of_present (at_stamp clk) (id task_) "completed"
                (kw_completed clk result)
                (records
                   (called task_
                      (update_world (at_stamp clk) (id task_) "in_progress"
                         (kw_in_progress clk) w)))) as (t & _ & Hid & ->).
    { rewrite records_called, records_update_world.
      exists (apply_update (at_stamp clk) (id task_) "in_progress"
                (kw_in_progress clk) task_).
      split; [now apply in_map|]. apply id_apply_update. }
    eexists. split; [reflexivity|].
    now rewrite id_update_matching, status_update_matching.
  - intros Hno. unfold _parse_claude_response. now rewrite parse_lines_no_closer.
Qed.

Lemma reply_completes_task_whatever_actions_did_witness :
  readable one_pending /\ In task_A (records one_pending) /\
  fst (run_task
         (claude_executor
            (sdk_attempt (fun _ => inl "I cannot do that."%string) (fun _ => []))
            "2023-11-14T22:13:58.000150")
         clock_1 task_A one_pending) = Ret tt.
Proof.
  assert (H : readable one_pending) by reflexivity.
  assert (Hin : In task_A (records one_pending)) by (left; reflexivity).
  split; [exact H|]. split; [exact Hin|].
  exact (proj1 (reply_completes_task_whatever_actions_did
                  (fun _ => inl "I cannot do that."%string) (fun _ => [])
                  "2023-11-14T22:13:58.000150" clock_1 task_A
                  "I cannot do that." one_pending H Hin eq_refl)).
Defined.

Example prose_reply_completes_with_no_action :
  map (fun t => (status t, actions_executed t))
      (records
         (snd (run_task
                 (claude_executor
                    (sdk_attempt (fun _ => inl "I cannot do that."%string)
                                 (fun _ => []))
                    "2023-11-14T22:13:58.000150")
                 clock_1 task_A one_pending))) =
  [("completed"%string, Some 0)].
Proof. vm_compute. reflexivity. Qed.

